(** * CloudWatch log viewer: the query / selection engine

    A shallow embedding of
    - [app/api/cloudwatch/route.ts]          (module [Route]),
    - [app/components/utils.ts]              (module [Debounce]),
    - [app/components/AdvancedSearch.tsx]    (modules [Filter], [Dropdown]
      and [Viewer] for the component [CloudWatchLogViewer], module
      [AdvancedSearch] for the criteria form),
    - [app/components/LogVisualization.tsx]  (module [LogVisualization]),
    with the concrete stores and states of the examples (modules
    [Examples] and [MoreExamples]), followed by the properties of the
    specification that these definitions settle.

    Conventions.  JavaScript numbers that the program uses as integers
    (epoch milliseconds, limits, indices) are [Z]; strings are [string];
    an optional property ([x?: T], [T | undefined], [T | null]) is an
    [option]; a value tested for truthiness keeps the JavaScript meaning
    (the empty string, [0], [undefined] and [null] are falsy).  A promise is
    split at its [await]: the part before it is a function that records an
    in-flight request, the part after it is a function of the response.
    Functions of the platform whose result depends on Unicode or on the
    date format ([String.prototype.toLowerCase], [String.prototype.trim],
    [Date.prototype.getTime]) are parameters of the definitions that call
    them; the examples instantiate them with the ASCII versions of the
    first two and with a [getTime] that parses no date. *)

From Stdlib Require Import ZArith List String Ascii Bool Lia.
Import ListNotations.

Open Scope string_scope.
Open Scope list_scope.
Open Scope Z_scope.

(** ** JavaScript truthiness *)

Definition truthy_string (s : string) : bool := negb (s =? "")%string.

Definition truthy_number (n : Z) : bool := negb (n =? 0).

Definition truthy_opt {A : Type} (t : A -> bool) (o : option A) : bool :=
  match o with
  | Some a => t a
  | None => false
  end.

(** [x || d] on an optional string: the default replaces every falsy [x]. *)
Definition or_string (o : option string) (d : string) : string :=
  match o with
  | Some s => if truthy_string s then s else d
  | None => d
  end.

(** [xs || []] on an optional array: an array is always truthy. *)
Definition or_nil {A : Type} (o : option (list A)) : list A :=
  match o with
  | Some l => l
  | None => []
  end.

(** ** Data model (the interfaces of CloudWatchLogViewer.tsx) *)

Record LogEvent := mkLogEvent {
  ev_timestamp : Z;
  ev_message : string;
  ev_logStreamName : string;
  ev_eventId : string;
  ev_ingestionTime : Z
}.

Record LogGroup := mkLogGroup {
  logGroupName : string;
  lg_creationTime : Z;
  lg_retentionInDays : option Z;
  lg_storedBytes : option Z
}.

Record LogStream := mkLogStream {
  logStreamName : string;
  ls_creationTime : Z;
  ls_lastEventTime : option Z;
  ls_lastIngestionTime : option Z;
  ls_storedBytes : option Z
}.

(** ** app/api/cloudwatch/route.ts *)

Module Route.

(** [process.env]: the three variables read at module load. *)
Record Env := mkEnv {
  region : option string;
  accessKeyId : option string;
  secretAccessKey : option string
}.

(** A thrown value, as far as [getFriendlyAWSError] looks at it: its
    [name] and [__type] properties, when it is an object that has them. *)
Record Thrown := mkThrown {
  err_name : option string;
  err_type : option string
}.

Definition Result (T : Type) : Type := (Thrown + T)%type.

(** Inputs and outputs of the three SDK commands the handlers send. *)
Record DescribeLogGroupsInput := mkDescribeLogGroupsInput {
  dlg_limit : Z;
  dlg_nextToken : option string
}.

Record DescribeLogGroupsOutput := mkDescribeLogGroupsOutput {
  dlg_logGroups : option (list LogGroup);
  dlg_outToken : option string
}.

Record DescribeLogStreamsInput := mkDescribeLogStreamsInput {
  dls_logGroupName : option string;
  dls_limit : Z;
  dls_nextToken : option string
}.

Record DescribeLogStreamsOutput := mkDescribeLogStreamsOutput {
  dls_logStreams : option (list LogStream);
  dls_outToken : option string
}.

Record FilterLogEventsCommandInput := mkFilterLogEventsCommandInput {
  fle_logGroupName : option string;
  fle_limit : Z;
  fle_logStreamNames : option (list string);
  fle_filterPattern : option string;
  fle_startTime : option Z;
  fle_endTime : option Z
}.

Record FilterLogEventsOutput := mkFilterLogEventsOutput {
  fle_events : option (list LogEvent)
}.

(** [client.send], one function per command.  The remote store is opaque:
    a request is answered by an output or by a thrown error. *)
Record Client := mkClient {
  sendDescribeLogGroups :
    DescribeLogGroupsInput -> Result DescribeLogGroupsOutput;
  sendDescribeLogStreams :
    DescribeLogStreamsInput -> Result DescribeLogStreamsOutput;
  sendFilterLogEvents :
    FilterLogEventsCommandInput -> Result FilterLogEventsOutput
}.

(** The error thrown by [getClient]: a plain [Error], whose [name] is
    ["Error"] and which has no [__type]. *)
Definition credentialsError : Thrown :=
  mkThrown (Some "Error") None.

Definition getClient (env : Env) (aws : Client) : Result Client :=
  if negb (truthy_opt truthy_string (region env))
     || negb (truthy_opt truthy_string (accessKeyId env))
     || negb (truthy_opt truthy_string (secretAccessKey env))
  then inl credentialsError
  else inr aws.

Definition is_name (o : option string) (s : string) : bool :=
  match o with
  | Some n => (n =? s)%string
  | None => false
  end.

Definition getFriendlyAWSError (err : Thrown) : option string :=
  match err_name err, err_type err with
  | None, None => None
  | name, type =>
      if is_name name "UnrecognizedClientException"
         || is_name type "UnrecognizedClientException"
         || is_name name "InvalidSignatureException"
         || is_name type "InvalidSignatureException"
      then Some "AWS credentials are invalid. Please check your configuration."
      else if is_name name "AccessDeniedException"
              || is_name type "AccessDeniedException"
      then Some "Access denied. Please check your AWS permissions."
      else None
  end.

(** [NextResponse.json(body, { status })]. *)
Inductive Body :=
| JsonLogGroups (logGroups : list LogGroup)
| JsonLogStreams (logStreams : list LogStream)
| JsonEvents (events : list LogEvent)
| JsonError (error : string).

Record NextResponse := mkNextResponse {
  body : Body;
  status : Z
}.

Definition ok_json (b : Body) : NextResponse := mkNextResponse b 200.

(** The [catch] block shared by the three handlers. *)
Definition on_error (fallback : string) (err : Thrown) : NextResponse :=
  match getFriendlyAWSError err with
  | Some friendly => mkNextResponse (JsonError friendly) 401
  | None => mkNextResponse (JsonError fallback) 500
  end.

(** *** GET: the do-while loop over continuation tokens

    The loop has no bound of its own, so the model takes fuel: one unit
    per iteration.  The result carries the requests sent, in order. *)
Inductive Outcome (T : Type) :=
| Done (v : T)
| Threw (e : Thrown)
| OutOfFuel.
Arguments Done {T} v.
Arguments Threw {T} e.
Arguments OutOfFuel {T}.

Fixpoint GET_loop (fuel : nat) (client : Client)
    (logGroups : list LogGroup) (nextToken : option string)
    (sent : list DescribeLogGroupsInput)
  : Outcome (list LogGroup) * list DescribeLogGroupsInput :=
  match fuel with
  | O => (OutOfFuel, sent)
  | S fuel' =>
      let request := mkDescribeLogGroupsInput 50 nextToken in
      let sent := sent ++ [request] in
      match sendDescribeLogGroups client request with
      | inl e => (Threw e, sent)
      | inr data =>
          let logGroups := logGroups ++ or_nil (dlg_logGroups data) in
          let nextToken := dlg_outToken data in
          if truthy_opt truthy_string nextToken
          then GET_loop fuel' client logGroups nextToken sent
          else (Done logGroups, sent)
      end
  end.

Definition GET (fuel : nat) (env : Env) (aws : Client)
  : option NextResponse * list DescribeLogGroupsInput :=
  match getClient env aws with
  | inl e => (Some (on_error "Failed to fetch log groups" e), [])
  | inr client =>
      match GET_loop fuel client [] None [] with
      | (Done logGroups, sent) =>
          (Some (ok_json (JsonLogGroups logGroups)), sent)
      | (Threw e, sent) =>
          (Some (on_error "Failed to fetch log groups" e), sent)
      | (OutOfFuel, sent) => (None, sent)
      end
  end.

(** *** POST: one search request *)

(** The JSON payload of a search, as [searchLogs] composes it. *)
Record SearchBody := mkSearchBody {
  b_logGroupName : option string;
  b_logStreamName : option string;
  b_filterPattern : option string;
  b_startTime : option Z;
  b_endTime : option Z;
  b_limit : option Z
}.

(** [limit && limit <= 10000 ? limit : 100] *)
Definition effective_limit (limit : option Z) : Z :=
  match limit with
  | Some l => if truthy_number l && (l <=? 10000) then l else 100
  | None => 100
  end.

(** [...(x && { k: f(x) })]: the property is present only for truthy [x].
    On a number [Number(x)] is [x]. *)
Definition spread_if {A B : Type} (t : A -> bool) (f : A -> B)
    (x : option A) : option B :=
  match x with
  | Some a => if t a then Some (f a) else None
  | None => None
  end.

Definition POST_params (b : SearchBody) : FilterLogEventsCommandInput :=
  {| fle_logGroupName := b_logGroupName b;
     fle_limit := effective_limit (b_limit b);
     fle_logStreamNames :=
       spread_if truthy_string (fun s => [s]) (b_logStreamName b);
     fle_filterPattern :=
       spread_if truthy_string (fun s => s) (b_filterPattern b);
     fle_startTime := spread_if truthy_number (fun n => n) (b_startTime b);
     fle_endTime := spread_if truthy_number (fun n => n) (b_endTime b) |}.

Definition POST (env : Env) (aws : Client) (b : SearchBody)
  : NextResponse * list FilterLogEventsCommandInput :=
  match getClient env aws with
  | inl e => (on_error "Failed to search logs" e, [])
  | inr client =>
      let params := POST_params b in
      match sendFilterLogEvents client params with
      | inr data => (ok_json (JsonEvents (or_nil (fle_events data))), [params])
      | inl e => (on_error "Failed to search logs" e, [params])
      end
  end.

(** *** PUT: the streams of one group *)

Definition PUT (env : Env) (aws : Client) (logGroupName : option string)
  : NextResponse * list DescribeLogStreamsInput :=
  match getClient env aws with
  | inl e => (on_error "Failed to fetch log streams" e, [])
  | inr client =>
      let request := mkDescribeLogStreamsInput logGroupName 50 None in
      match sendDescribeLogStreams client request with
      | inr data =>
          (ok_json (JsonLogStreams (or_nil (dls_logStreams data))), [request])
      | inl e => (on_error "Failed to fetch log streams" e, [request])
      end
  end.

(** *** A paged source, as the specification describes it

    [serves client token outs]: asked with [token], the store answers
    with the first output of [outs]; each output but the last carries a
    continuation token, and asked with that token the store answers with
    the next output; the last output carries none. *)
Inductive serves (client : Client)
  : option string -> list DescribeLogGroupsOutput -> Prop :=
| serves_last token out :
    sendDescribeLogGroups client (mkDescribeLogGroupsInput 50 token)
      = inr out ->
    dlg_outToken out = None ->
    serves client token [out]
| serves_more token out next rest :
    sendDescribeLogGroups client (mkDescribeLogGroupsInput 50 token)
      = inr out ->
    dlg_outToken out = Some next ->
    serves client (Some next) rest ->
    serves client token (out :: rest).

(** The items of the pages, page after page. *)
Definition all_items (outs : list DescribeLogGroupsOutput) : list LogGroup :=
  flat_map (fun out => or_nil (dlg_logGroups out)) outs.

(** The requests that walk the pages: the first with [token], each
    later one with the token the previous page returned. *)
Fixpoint requests_for (token : option string)
    (outs : list DescribeLogGroupsOutput) : list DescribeLogGroupsInput :=
  match outs with
  | [] => []
  | out :: rest =>
      mkDescribeLogGroupsInput 50 token :: requests_for (dlg_outToken out) rest
  end.

(** No page carries the empty string as its token. *)
Definition tokens_nonempty (outs : list DescribeLogGroupsOutput) : Prop :=
  Forall (fun out => dlg_outToken out <> Some "") outs.

Definition configured (env : Env) : Prop :=
  truthy_opt truthy_string (region env) = true /\
  truthy_opt truthy_string (accessKeyId env) = true /\
  truthy_opt truthy_string (secretAccessKey env) = true.

End Route.

(** ** The filtered views of CloudWatchLogViewer.tsx

    A JavaScript string is a [string] here through an encoding that keeps
    equality and contiguous parts (as UTF-8 does for well-formed
    strings).  [String.prototype.toLowerCase] is Unicode-aware and not a
    character-by-character map, so the views take it as a parameter: what
    is proved of them holds for the platform's function. *)

Module Filter.

(** What [toLowerCase] does to a string of ASCII characters: the letters
    [A]..[Z] move to [a]..[z], every other character stays.  It is the
    instance of the examples. *)
Definition lower_ascii (c : ascii) : ascii :=
  let n := nat_of_ascii c in
  if (65 <=? n)%nat && (n <=? 90)%nat then ascii_of_nat (n + 32) else c.

Fixpoint asciiLowerCase (s : string) : string :=
  match s with
  | EmptyString => EmptyString
  | String c s' => String (lower_ascii c) (asciiLowerCase s')
  end.

(** [s.startsWith(p)] *)
Fixpoint startsWith (s p : string) : bool :=
  match p, s with
  | EmptyString, _ => true
  | String _ _, EmptyString => false
  | String a p', String b s' => Ascii.eqb a b && startsWith s' p'
  end.

(** [s.includes(sub)]: [sub] occurs in [s] at some position. *)
Fixpoint includes (s sub : string) : bool :=
  startsWith s sub ||
  match s with
  | EmptyString => false
  | String _ s' => includes s' sub
  end.

(** One definition serves both views: the source repeats the expression
    for groups (by [logGroupName]) and streams (by [logStreamName]).
    [toLowerCase] is [String.prototype.toLowerCase]. *)
Definition filtered {A : Type} (toLowerCase : string -> string)
    (name : A -> string) (debouncedQuery : string) (items : list A)
  : list A :=
  if (debouncedQuery =? "")%string then items
  else filter
         (fun item =>
            includes (toLowerCase (name item)) (toLowerCase debouncedQuery))
         items.

Definition filteredLogGroups (toLowerCase : string -> string)
    (debouncedLogGroupQuery : string) (logGroups : list LogGroup)
  : list LogGroup :=
  filtered toLowerCase logGroupName debouncedLogGroupQuery logGroups.


(** A string of ASCII characters. *)
Definition ascii_only (s : string) : Prop :=
  forallb (fun c => (nat_of_ascii c <? 128)%nat) (list_ascii_of_string s)
  = true.

(** On strings of ASCII characters the lowering function is the ASCII
    one, as [String.prototype.toLowerCase] is. *)
Definition agrees_on_ascii (toLowerCase : string -> string) : Prop :=
  forall s, ascii_only s -> toLowerCase s = asciiLowerCase s.

(** Two strings of ASCII characters are equal up to case when they have
    the same length and agree character by character once both are
    lowered. *)
Fixpoint eq_ignore_case (a b : string) : Prop :=
  match a, b with
  | EmptyString, EmptyString => True
  | String x a', String y b' =>
      lower_ascii x = lower_ascii y /\ eq_ignore_case a' b'
  | _, _ => False
  end.

(** The reading of the specification, to compare with the code: [name]
    contains [q] case-insensitively when the lowered [q] is a contiguous
    part of the lowered [name]. *)
Definition contains_ci (toLowerCase : string -> string) (name q : string)
  : Prop :=
  exists pre post : string,
    toLowerCase name = (pre ++ toLowerCase q ++ post)%string.

(** [selects P l sub]: [sub] is exactly the elements of [l] that satisfy
    [P], each as often as it occurs in [l] and in the order of [l]. *)
Inductive selects {A : Type} (P : A -> Prop) : list A -> list A -> Prop :=
| selects_nil : selects P [] []
| selects_keep x l sub :
    P x -> selects P l sub -> selects P (x :: l) (x :: sub)
| selects_drop x l sub :
    ~ P x -> selects P l sub -> selects P (x :: l) sub.

End Filter.

(** ** app/components/utils.ts: useDebounce *)

Module Debounce.

(** [setTimeout] takes its delay as a Web IDL [long]: the number is
    reduced modulo 2^32 into the signed 32-bit range, and a negative
    result counts as zero.  A delay of 2^31 or more is therefore not
    waited for. *)
Definition toInt32 (n : Z) : Z := (n + 2147483648) mod 4294967296 - 2147483648.

Definition wait (delay : Z) : Z := Z.max 0 (toInt32 delay).

(** A timer created by [setTimeout(() => setDebouncedValue(value), delay)]:
    when it was started, its delay, and the value its callback closes
    over.  It may run at any time from [due] on, never earlier. *)
Record Timer := mkTimer {
  started : Z;
  timer_delay : Z;
  timer_value : string
}.

Definition due (tm : Timer) : Z := started tm + wait (timer_delay tm).

(** One instance of the hook: its state cell, the dependencies of the
    last run of its effect, and the timer that effect left behind
    ([None] once the timer has run or was cleared). *)
Record Hook := mkHook {
  debouncedValue : string;
  dep_value : string;
  dep_delay : Z;
  handler : option Timer
}.

(** First render at time [now]: [useState(value)], then the effect. *)
Definition mount (now : Z) (value : string) (delay : Z) : Hook :=
  {| debouncedValue := value;
     dep_value := value;
     dep_delay := delay;
     handler := Some (mkTimer now delay value) |}.

(** A later render at time [now].  The effect runs again only when
    [value] or [delay] differ from the last run; its cleanup
    ([clearTimeout(handler)]) runs first, so the new timer replaces the
    old one. *)
Definition render (now : Z) (value : string) (delay : Z) (h : Hook) : Hook :=
  if (value =? dep_value h)%string && (delay =? dep_delay h)
  then h
  else {| debouncedValue := debouncedValue h;
          dep_value := value;
          dep_delay := delay;
          handler := Some (mkTimer now delay value) |}.

(** The timer callback runs at time [now]: impossible without a live
    timer or before it is due. *)
Definition fire (now : Z) (h : Hook) : option (Hook * string) :=
  match handler h with
  | Some tm =>
      if due tm <=? now
      then Some ({| debouncedValue := timer_value tm;
                    dep_value := dep_value h;
                    dep_delay := dep_delay h;
                    handler := None |}, timer_value tm)
      else None
  | None => None
  end.

(** Unmount: the cleanup of the last effect clears the timer. *)
Definition unmount (h : Hook) : Hook :=
  {| debouncedValue := debouncedValue h;
     dep_value := dep_value h;
     dep_delay := dep_delay h;
     handler := None |}.

(** What the hook returns to the component. *)
Definition useDebounce (h : Hook) : string := debouncedValue h.

(** The hook in time: renders with the raw value of the moment, and
    runs of the timer callback.  [emitted] logs every call of
    [setDebouncedValue] by a timer, with its time. *)
Inductive Event :=
| Render (value : string) (delay : Z)
| Timeout.

Record Sys := mkSys {
  hook : Hook;
  clock : Z;
  emitted : list (Z * string)
}.

Definition start (now : Z) (value : string) (delay : Z) : Sys :=
  mkSys (mount now value delay) now [].

(** An event at time [t]; [None] when it cannot happen (time running
    backwards, a timer running early or after it was cleared). *)
Definition step (te : Z * Event) (s : Sys) : option Sys :=
  let (t, e) := te in
  if t <? clock s then None
  else match e with
       | Render value delay =>
           Some (mkSys (render t value delay (hook s)) t (emitted s))
       | Timeout =>
           match fire t (hook s) with
           | Some (h, v) => Some (mkSys h t (emitted s ++ [(t, v)]))
           | None => None
           end
       end.

Fixpoint run (trace : list (Z * Event)) (s : Sys) : option Sys :=
  match trace with
  | [] => Some s
  | te :: rest =>
      match step te s with
      | Some s' => run rest s'
      | None => None
      end
  end.

(** The renders of a trace, in order. *)
Fixpoint renders (trace : list (Z * Event)) : list (Z * string) :=
  match trace with
  | [] => []
  | (t, Render v _) :: rest => (t, v) :: renders rest
  | (_, Timeout) :: rest => renders rest
  end.

(** Every render of the trace passes the delay [d]. *)
Fixpoint delay_is (d : Z) (trace : list (Z * Event)) : Prop :=
  match trace with
  | [] => True
  | (_, Render _ d') :: rest => d' = d /\ delay_is d rest
  | (_, Timeout) :: rest => delay_is d rest
  end.

(** The latest raw input of a trace whose renders all pass the same
    delay: the time and value of the last render whose value differs
    from the value before it; [(t0, v0)] when there is none. *)
Fixpoint latest (t0 : Z) (v0 : string) (trace : list (Z * Event))
  : Z * string :=
  match trace with
  | [] => (t0, v0)
  | (t, Render v _) :: rest =>
      if (v =? v0)%string then latest t0 v0 rest else latest t v rest
  | (_, Timeout) :: rest => latest t0 v0 rest
  end.

(** A burst of raw inputs after an input at time [t0] with value [v0]:
    each one is a new value and comes less than [d] after the one
    before. *)
Fixpoint burst (d : Z) (t0 : Z) (v0 : string) (inputs : list (Z * string))
  : Prop :=
  match inputs with
  | [] => True
  | (t, v) :: rest => v <> v0 /\ t0 <= t < t0 + d /\ burst d t v rest
  end.

Definition final_input (t0 : Z) (v0 : string) (inputs : list (Z * string))
  : Z * string :=
  last inputs (t0, v0).

(** The renders that deliver the inputs, one each. *)
Definition as_renders (d : Z) (inputs : list (Z * string))
  : list (Z * Event) :=
  map (fun tv => (fst tv, Render (snd tv) d)) inputs.

(** What is known of a hook whose latest raw input came at [t0] with
    value [v0]: its dependencies, and a timer that is either gone or the
    one started by that input. *)
Definition tracks (d : Z) (t0 : Z) (v0 : string) (h : Hook) : Prop :=
  dep_value h = v0 /\ dep_delay h = d /\
  (handler h = None \/ handler h = Some (mkTimer t0 d v0)).

End Debounce.

(** ** The two virtualised dropdowns of CloudWatchLogViewer.tsx

    The group dropdown and the stream dropdown are the same code twice
    ([logGroupOpen] / [logGroupActiveIndex] / [filteredLogGroups.length] /
    [parentRefLogGroup] and their stream counterparts); one model serves
    both. *)

Module Dropdown.

Record View := mkView {
  isOpen : bool;          (* logGroupOpen / logStreamOpen *)
  activeIndex : Z;        (* logGroupActiveIndex / logStreamActiveIndex *)
  itemCount : nat;        (* filteredLogGroups.length, the virtualizer's count *)
  parentRef : bool        (* parentRefLogGroup.current is not null *)
}.

Definition initial (n : nat) : View := mkView false 0 n false.

Inductive Key := ArrowDown | ArrowUp | OtherKey.

(** [Combobox.Input onKeyDown] *)
Definition onKeyDown (k : Key) (v : View) : View :=
  match k with
  | ArrowDown =>
      mkView true
             (Z.min (activeIndex v + 1) (Z.of_nat (itemCount v) - 1))
             (itemCount v) (parentRef v)
  | ArrowUp =>
      mkView true (Z.max (activeIndex v - 1) 0) (itemCount v) (parentRef v)
  | OtherKey => v
  end.

Inductive Event :=
| KeyDown (k : Key)
| MouseEnter (index : Z)       (* onMouseEnter of a rendered row *)
| Focus                        (* onFocus *)
| BlurTimeout                  (* the timer set by onBlur runs *)
| ButtonClick                  (* Combobox.Button onClick *)
| ItemsChanged (n : nat)       (* the filtered list has a new length *)
| RefChanged (mounted : bool). (* the options container (un)mounts *)

Definition handle (e : Event) (v : View) : View :=
  match e with
  | KeyDown k => onKeyDown k v
  | MouseEnter index => mkView (isOpen v) index (itemCount v) (parentRef v)
  | Focus => mkView true (activeIndex v) (itemCount v) (parentRef v)
  | BlurTimeout => mkView false (activeIndex v) (itemCount v) (parentRef v)
  | ButtonClick =>
      mkView (negb (isOpen v)) (activeIndex v) (itemCount v) (parentRef v)
  | ItemsChanged n => mkView (isOpen v) (activeIndex v) n (parentRef v)
  | RefChanged mounted =>
      mkView (isOpen v) (activeIndex v) (itemCount v) mounted
  end.

(** The dependency array [[open, activeIndex, filtered.length]]. *)
Definition deps_changed (before after : View) : bool :=
  negb (Bool.eqb (isOpen before) (isOpen after)
        && (activeIndex before =? activeIndex after)
        && (itemCount before =? itemCount after)%nat).

(** The body of the scroll effect: the arguments of the calls of
    [virtualizer.scrollToIndex] it makes (none or one). *)
Definition scrollEffect (v : View) : list Z :=
  if isOpen v && parentRef v && (0 <? Z.of_nat (itemCount v))
  then [activeIndex v]
  else [].

(** A call of [scrollToIndex]: its argument and the virtualizer's
    [count] at that render. *)
Record ScrollCall := mkScrollCall {
  scrolledTo : Z;
  countThen : nat
}.

(** One event: the handler (or the change of the list) updates the
    state, the component renders, and the effect runs when one of its
    dependencies changed. *)
Definition step (e : Event) (v : View) : View * list ScrollCall :=
  let v' := handle e v in
  (v', if deps_changed v v'
       then map (fun i => mkScrollCall i (itemCount v')) (scrollEffect v')
       else []).

Fixpoint run (events : list Event) (v : View) : View * list ScrollCall :=
  match events with
  | [] => (v, [])
  | e :: rest =>
      let (v', calls) := step e v in
      let (v'', calls') := run rest v' in
      (v'', calls ++ calls')
  end.




End Dropdown.

(** ** CloudWatchLogViewer.tsx: selection state and its asynchronous
       operations *)

Module Viewer.

(** The [useState] cells of selection, search and loading.  The cells of
    the two dropdowns ([logGroupOpen], [logGroupActiveIndex], ...) are the
    [View] of module [Dropdown], and each debounced query is a [Hook] of
    module [Debounce]. *)
Record State := mkState {
  logGroups : list LogGroup;
  logStreams : list LogStream;
  selectedLogGroup : option string;      (* string | null *)
  selectedLogStream : option string;     (* string | null *)
  filterPattern : string;
  startTime : string;
  endTime : string;
  logEvents : list LogEvent;
  loading : bool;
  error : string;
  logGroupQuery : string;
  logStreamQuery : string
}.

(** The state setters returned by [useState]. *)
Definition setLogGroups (v : list LogGroup) (s : State) : State :=
  mkState v (logStreams s) (selectedLogGroup s) (selectedLogStream s)
          (filterPattern s) (startTime s) (endTime s) (logEvents s)
          (loading s) (error s) (logGroupQuery s) (logStreamQuery s).

Definition setLogStreams (v : list LogStream) (s : State) : State :=
  mkState (logGroups s) v (selectedLogGroup s) (selectedLogStream s)
          (filterPattern s) (startTime s) (endTime s) (logEvents s)
          (loading s) (error s) (logGroupQuery s) (logStreamQuery s).

Definition setSelectedLogGroup (v : option string) (s : State) : State :=
  mkState (logGroups s) (logStreams s) v (selectedLogStream s)
          (filterPattern s) (startTime s) (endTime s) (logEvents s)
          (loading s) (error s) (logGroupQuery s) (logStreamQuery s).

Definition setSelectedLogStream (v : option string) (s : State) : State :=
  mkState (logGroups s) (logStreams s) (selectedLogGroup s) v
          (filterPattern s) (startTime s) (endTime s) (logEvents s)
          (loading s) (error s) (logGroupQuery s) (logStreamQuery s).

Definition setFilterPattern (v : string) (s : State) : State :=
  mkState (logGroups s) (logStreams s) (selectedLogGroup s)
          (selectedLogStream s) v (startTime s) (endTime s) (logEvents s)
          (loading s) (error s) (logGroupQuery s) (logStreamQuery s).

Definition setStartTime (v : string) (s : State) : State :=
  mkState (logGroups s) (logStreams s) (selectedLogGroup s)
          (selectedLogStream s) (filterPattern s) v (endTime s) (logEvents s)
          (loading s) (error s) (logGroupQuery s) (logStreamQuery s).

Definition setEndTime (v : string) (s : State) : State :=
  mkState (logGroups s) (logStreams s) (selectedLogGroup s)
          (selectedLogStream s) (filterPattern s) (startTime s) v
          (logEvents s) (loading s) (error s) (logGroupQuery s)
          (logStreamQuery s).

Definition setLogEvents (v : list LogEvent) (s : State) : State :=
  mkState (logGroups s) (logStreams s) (selectedLogGroup s)
          (selectedLogStream s) (filterPattern s) (startTime s) (endTime s)
          v (loading s) (error s) (logGroupQuery s) (logStreamQuery s).

Definition setLoading (v : bool) (s : State) : State :=
  mkState (logGroups s) (logStreams s) (selectedLogGroup s)
          (selectedLogStream s) (filterPattern s) (startTime s) (endTime s)
          (logEvents s) v (error s) (logGroupQuery s) (logStreamQuery s).

Definition setError (v : string) (s : State) : State :=
  mkState (logGroups s) (logStreams s) (selectedLogGroup s)
          (selectedLogStream s) (filterPattern s) (startTime s) (endTime s)
          (logEvents s) (loading s) v (logGroupQuery s) (logStreamQuery s).

Definition setLogGroupQuery (v : string) (s : State) : State :=
  mkState (logGroups s) (logStreams s) (selectedLogGroup s)
          (selectedLogStream s) (filterPattern s) (startTime s) (endTime s)
          (logEvents s) (loading s) (error s) v (logStreamQuery s).

Definition setLogStreamQuery (v : string) (s : State) : State :=
  mkState (logGroups s) (logStreams s) (selectedLogGroup s)
          (selectedLogStream s) (filterPattern s) (startTime s) (endTime s)
          (logEvents s) (loading s) (error s) (logGroupQuery s) v.

(** The [useState] initial values. *)
Definition initialState : State :=
  mkState [] [] (Some "") (Some "") "" "" "" [] false "" "" "".

(** A request handed to [fetch("/api/cloudwatch", ...)], by method. *)
Inductive Request :=
| GetGroups
| PutStreams (logGroupName : string)
| PostSearch (searchParams : Route.SearchBody).

(** What [await response.json()] yields, as far as the component reads
    it. *)
Record Data := mkData {
  d_error : option string;
  d_logGroups : list LogGroup;
  d_logStreams : list LogStream;
  d_events : list LogEvent
}.

(** How an awaited request ends: [fetch] or [json()] rejects with an
    error carrying [message], or a response arrives with its [ok] flag
    and its parsed body. *)
Inductive Response :=
| Rejected (message : string)
| Answered (ok : bool) (data : Data).

(** The component together with the requests it is waiting for, the
    oldest first. *)
Record Sys := mkSys {
  state : State;
  inflight : list Request
}.

(** The shared shape of the three [try / catch / finally] bodies after
    the [await]: [apply] stores the payload of a good answer. *)
Definition settle (fallback : string) (apply : Data -> State -> State)
    (r : Response) (s : State) : State :=
  match r with
  | Rejected message => setLoading false (setError message s)
  | Answered ok data =>
      if negb ok
      then setLoading false (setError (or_string (d_error data) fallback) s)
      else setLoading false (apply data s)
  end.

(** [fetchLogGroups], up to the [await] and after it. *)
Definition fetchLogGroups (y : Sys) : Sys :=
  mkSys (setError "" (setLoading true (state y)))
        (inflight y ++ [GetGroups]).

Definition fetchLogGroups_then : Response -> State -> State :=
  settle "Failed to fetch log groups"
         (fun data => setLogGroups (d_logGroups data)).

(** [fetchLogStreams(logGroupName)] *)
Definition fetchLogStreams (logGroupName : string) (y : Sys) : Sys :=
  if negb (truthy_string logGroupName) then y
  else mkSys (setError "" (setLoading true (state y)))
             (inflight y ++ [PutStreams logGroupName]).

Definition fetchLogStreams_then : Response -> State -> State :=
  settle "Failed to fetch log streams"
         (fun data => setLogStreams (d_logStreams data)).

Section Search.

(** [new Date(s).getTime()], as it reaches the JSON payload: [None]
    when the date is invalid ([NaN] is serialised as [null]). *)
Variable getTime : string -> option Z.

Definition searchParams (g : string) (s : State) : Route.SearchBody :=
  {| Route.b_logGroupName := Some g;
     Route.b_logStreamName :=
       match selectedLogStream s with
       | Some n => if truthy_string n then Some n else None
       | None => None
       end;
     Route.b_filterPattern :=
       if truthy_string (filterPattern s) then Some (filterPattern s)
       else None;
     Route.b_startTime :=
       if truthy_string (startTime s) then getTime (startTime s) else None;
     Route.b_endTime :=
       if truthy_string (endTime s) then getTime (endTime s) else None;
     Route.b_limit := Some 100 |}.

(** [searchLogs], up to the [await]. *)
Definition searchLogs (y : Sys) : Sys :=
  match selectedLogGroup (state y) with
  | Some g =>
      if truthy_string g
      then mkSys (setError "" (setLoading true (state y)))
                 (inflight y ++ [PostSearch (searchParams g (state y))])
      else mkSys (setError "Please select a log group" (state y))
                 (inflight y)
  | None =>
      mkSys (setError "Please select a log group" (state y)) (inflight y)
  end.

End Search.

Definition searchLogs_then : Response -> State -> State :=
  settle "Failed to search logs" (fun data => setLogEvents (d_events data)).

(** [clearFilters] *)
Definition clearFilters (s : State) : State :=
  setError ""
    (setLogStreamQuery ""
      (setLogGroupQuery ""
        (setLogEvents []
          (setEndTime ""
            (setStartTime ""
              (setFilterPattern ""
                (setSelectedLogStream (Some "")
                  (setSelectedLogGroup (Some "") s)))))))).

(** The effect with dependency [[selectedLogGroup]]. *)
Definition groupEffect (y : Sys) : Sys :=
  match selectedLogGroup (state y) with
  | Some g =>
      if truthy_string g then fetchLogStreams g y
      else mkSys (setSelectedLogStream (Some "") (setLogStreams [] (state y)))
                 (inflight y)
  | None =>
      mkSys (setSelectedLogStream (Some "") (setLogStreams [] (state y)))
            (inflight y)
  end.

Definition same_selection (a b : option string) : bool :=
  match a, b with
  | Some x, Some y => (x =? y)%string
  | None, None => true
  | _, _ => false
  end.

(** After a render: the group effect runs when [selectedLogGroup] is not
    what it was at the previous render. *)
Definition afterRender (before : State) (y : Sys) : Sys :=
  if same_selection (selectedLogGroup before) (selectedLogGroup (state y))
  then y
  else groupEffect y.

(** The first render: both mount effects run, [fetchLogGroups] first. *)
Definition mounted : Sys := groupEffect (fetchLogGroups (mkSys initialState [])).

(** [Combobox onChange] of the group dropdown, [value || ""], followed
    by the render it causes.  This is the coordinator's [selectGroup]. *)
Definition selectGroup (value : option string) (y : Sys) : Sys :=
  afterRender (state y)
    (mkSys (setSelectedLogGroup (Some (or_string value "")) (state y))
           (inflight y)).

(** [Combobox onChange] of the stream dropdown. *)
Definition selectStream (value : option string) (y : Sys) : Sys :=
  mkSys (setSelectedLogStream (Some (or_string value "")) (state y))
        (inflight y).

Fixpoint remove_nth {A : Type} (n : nat) (l : list A) : list A :=
  match n, l with
  | _, [] => []
  | O, _ :: l' => l'
  | S n', x :: l' => x :: remove_nth n' l'
  end.

(** The continuation that waits for a request. *)
Definition continuation (q : Request) : Response -> State -> State :=
  match q with
  | GetGroups => fetchLogGroups_then
  | PutStreams _ => fetchLogStreams_then
  | PostSearch _ => searchLogs_then
  end.

(** The one submit button of the form is [disabled={loading ||
    !selectedLogGroup}], and [searchLogs] is called from the form's
    [onSubmit] only: the form can be submitted exactly when this holds. *)
Definition canSubmit (s : State) : bool :=
  negb (loading s) && truthy_opt truthy_string (selectedLogGroup s).

(** What can happen to the mounted component. *)
Inductive Action :=
| SelectGroup (value : option string)
| SelectStream (value : option string)
| TypeFilterPattern (v : string)
| PickStartTime (v : string)
| PickEndTime (v : string)
| TypeGroupQuery (v : string)
| TypeStreamQuery (v : string)
| Submit                              (* the form's onSubmit: searchLogs() *)
| Clear                               (* clearFilters *)
| Arrive (n : nat) (r : Response).    (* the n-th awaited request ends *)

(** One action; [None] when it cannot happen (a submit with the button
    disabled, a response to a request that is not in flight). *)
Definition step (getTime : string -> option Z) (a : Action) (y : Sys)
  : option Sys :=
  match a with
  | SelectGroup value => Some (selectGroup value y)
  | SelectStream value => Some (selectStream value y)
  | TypeFilterPattern v => Some (mkSys (setFilterPattern v (state y)) (inflight y))
  | PickStartTime v => Some (mkSys (setStartTime v (state y)) (inflight y))
  | PickEndTime v => Some (mkSys (setEndTime v (state y)) (inflight y))
  | TypeGroupQuery v => Some (mkSys (setLogGroupQuery v (state y)) (inflight y))
  | TypeStreamQuery v => Some (mkSys (setLogStreamQuery v (state y)) (inflight y))
  | Submit =>
    if canSubmit (state y) then Some (searchLogs getTime y) else None
  | Clear =>
      Some (afterRender (state y) (mkSys (clearFilters (state y)) (inflight y)))
  | Arrive n r =>
      match nth_error (inflight y) n with
      | Some q => Some (mkSys (continuation q r (state y))
                              (remove_nth n (inflight y)))
      | None => None
      end
  end.

Fixpoint run (getTime : string -> option Z) (actions : list Action) (y : Sys)
  : option Sys :=
  match actions with
  | [] => Some y
  | a :: rest =>
      match step getTime a y with
      | Some y' => run getTime rest y'
      | None => None
      end
  end.

End Viewer.

(** ** Concrete stores and states used by the examples below *)

Module Examples.

Import Route.

Definition env : Env :=
  mkEnv (Some "us-east-1") (Some "AKIAEXAMPLE") (Some "secret").

Definition groupA : LogGroup := mkLogGroup "/svc/a" 1 None None.
Definition groupB : LogGroup := mkLogGroup "/svc/b" 2 None None.
Definition groupC : LogGroup := mkLogGroup "/svc/c" 3 (Some 7) None.

Definition stream1 : LogStream := mkLogStream "2024/01/01/x" 1 None None None.
Definition stream2 : LogStream := mkLogStream "2024/01/02/y" 2 None None None.

Definition eventOld : LogEvent := mkLogEvent 5 "old" "2024/01/01/x" "o" 6.
Definition eventA : LogEvent := mkLogEvent 10 "first" "2024/01/01/x" "a" 11.
Definition eventB : LogEvent := mkLogEvent 20 "second" "2024/01/01/x" "b" 21.

Definition unavailable : Thrown := mkThrown (Some "ServiceUnavailable") None.

(** Three pages of groups linked by the tokens ["t1"] and ["t2"]. *)
Definition threePages : Client :=
  {| sendDescribeLogGroups := fun request =>
       match dlg_nextToken request with
       | None => inr (mkDescribeLogGroupsOutput (Some [groupA]) (Some "t1"))
       | Some "t1" =>
           inr (mkDescribeLogGroupsOutput (Some [groupB]) (Some "t2"))
       | Some "t2" => inr (mkDescribeLogGroupsOutput (Some [groupC]) None)
       | Some _ => inl unavailable
       end;
     sendDescribeLogStreams := fun _ => inl unavailable;
     sendFilterLogEvents := fun _ => inl unavailable |}.

Definition threePages_outs : list DescribeLogGroupsOutput :=
  [ mkDescribeLogGroupsOutput (Some [groupA]) (Some "t1");
    mkDescribeLogGroupsOutput (Some [groupB]) (Some "t2");
    mkDescribeLogGroupsOutput (Some [groupC]) None ].

(** Two pages of groups; the first page carries the empty string as its
    continuation token, and the store answers that token with the second
    page. *)
Definition emptyToken : Client :=
  {| sendDescribeLogGroups := fun request =>
       match dlg_nextToken request with
       | None => inr (mkDescribeLogGroupsOutput (Some [groupA]) (Some ""))
       | Some _ => inr (mkDescribeLogGroupsOutput (Some [groupB]) None)
       end;
     sendDescribeLogStreams := fun _ => inl unavailable;
     sendFilterLogEvents := fun _ => inl unavailable |}.

Definition emptyToken_outs : list DescribeLogGroupsOutput :=
  [ mkDescribeLogGroupsOutput (Some [groupA]) (Some "");
    mkDescribeLogGroupsOutput (Some [groupB]) None ].

(** A group whose stream listing spans two pages. *)
Definition twoStreamPages : Client :=
  {| sendDescribeLogGroups := fun _ => inl unavailable;
     sendDescribeLogStreams := fun request =>
       match dls_nextToken request with
       | None => inr (mkDescribeLogStreamsOutput (Some [stream1]) (Some "p2"))
       | Some _ => inr (mkDescribeLogStreamsOutput (Some [stream2]) None)
       end;
     sendFilterLogEvents := fun _ => inl unavailable |}.

Definition named (n : string) : LogGroup := mkLogGroup n 0 None None.

Definition noDates : string -> option Z := fun _ => None.

Definition answer (events : list LogEvent) : Viewer.Response :=
  Viewer.Answered true (Viewer.mkData None [] [] events).

(** Group ["/svc/a"] selected, one earlier result on display. *)
Definition browsing : Viewer.Sys :=
  Viewer.mkSys
    (Viewer.mkState [groupA; groupB] [stream1] (Some "/svc/a")
                    (Some "2024/01/01/x") "" "" "" [eventOld] false "" "" "")
    [].

(** Nothing selected, an earlier result still on display. *)
Definition nothingSelected : Viewer.Sys :=
  Viewer.mkSys
    (Viewer.mkState [groupA; groupB] [] (Some "") (Some "") "ERROR" "" ""
                    [eventOld] false "" "" "")
    [Viewer.GetGroups].

End Examples.

(** ** route.ts: listings that fail or never end *)

Module Paging.

Import Route.

(** [fails_after client token outs e]: asked with [token], the store
    serves the pages [outs], each with a non-empty continuation token, and
    then throws [e] on the request that carries the last of these tokens
    ([token] itself when [outs] is empty). *)
Inductive fails_after (client : Client)
  : option string -> list DescribeLogGroupsOutput -> Thrown -> Prop :=
| fails_now token e :
    sendDescribeLogGroups client (mkDescribeLogGroupsInput 50 token)
      = inl e ->
    fails_after client token [] e
| fails_later token out next rest e :
    sendDescribeLogGroups client (mkDescribeLogGroupsInput 50 token)
      = inr out ->
    dlg_outToken out = Some next ->
    next <> "" ->
    fails_after client (Some next) rest e ->
    fails_after client token (out :: rest) e.

(** The token in hand after the pages [outs], starting from [token]. *)
Definition token_after (token : option string)
    (outs : list DescribeLogGroupsOutput) : option string :=
  last (map dlg_outToken outs) token.

(** A store that answers every request with a page and a non-empty
    continuation token. *)
Definition always_more (client : Client) : Prop :=
  forall request,
  exists out,
    sendDescribeLogGroups client request = inr out /\
    truthy_opt truthy_string (dlg_outToken out) = true.

(** The three exception names [getFriendlyAWSError] knows. *)
Definition credentials_rejected (e : Thrown) : Prop :=
  err_name e = Some "UnrecognizedClientException" \/
  err_type e = Some "UnrecognizedClientException" \/
  err_name e = Some "InvalidSignatureException" \/
  err_type e = Some "InvalidSignatureException".

Definition access_denied (e : Thrown) : Prop :=
  err_name e = Some "AccessDeniedException" \/
  err_type e = Some "AccessDeniedException".

End Paging.

(** ** app/components/AdvancedSearch.tsx *)

Module AdvancedSearch.

Inductive Field := FMessage | FTimestamp | FLogLevel | FCustom.

Inductive Operator := OContains | OEquals | OStartsWith | ORegex | OBetween.

Record SearchCriteria := mkSearchCriteria {
  id : string;
  field : Field;
  operator : Operator;
  value : string;
  value2 : option string
}.

Inductive Combine := AND | OR.

(** The three [useState] cells of the component. *)
Record State := mkState {
  criteria : list SearchCriteria;
  logLevel : string;
  combineOperator : Combine
}.

Definition blankCriteria (newId : string) : SearchCriteria :=
  mkSearchCriteria newId FMessage OContains "" None.

Definition initialState : State := mkState [blankCriteria "1"] "" AND.

(** [addCriteria]; [now] is [Date.now().toString()] at the click. *)
Definition addCriteria (now : string) (s : State) : State :=
  mkState (criteria s ++ [blankCriteria now]) (logLevel s) (combineOperator s).

(** [removeCriteria(id)] *)
Definition removeCriteria (i : string) (s : State) : State :=
  if (1 <? List.length (criteria s))%nat
  then mkState (filter (fun c => negb (id c =? i)%string) (criteria s))
               (logLevel s) (combineOperator s)
  else s.

(** [Partial<SearchCriteria>]: [Some] for a property the object has. *)
Record Updates := mkUpdates {
  u_id : option string;
  u_field : option Field;
  u_operator : option Operator;
  u_value : option string;
  u_value2 : option (option string)
}.

Definition override {A : Type} (old : A) (new : option A) : A :=
  match new with
  | Some a => a
  | None => old
  end.

(** [{ ...c, ...updates }] *)
Definition merge (c : SearchCriteria) (u : Updates) : SearchCriteria :=
  mkSearchCriteria (override (id c) (u_id u))
                   (override (field c) (u_field u))
                   (override (operator c) (u_operator u))
                   (override (value c) (u_value u))
                   (override (value2 c) (u_value2 u)).

(** [updateCriteria(id, updates)] *)
Definition updateCriteria (i : string) (u : Updates) (s : State) : State :=
  mkState (map (fun c => if (id c =? i)%string then merge c u else c)
               (criteria s))
          (logLevel s) (combineOperator s).

(** [resetCriteria]: the combine operator is not reset. *)
Definition resetCriteria (s : State) : State :=
  mkState [blankCriteria "1"] "" (combineOperator s).

(** What [String.prototype.trim] does to a string of ASCII characters:
    tab, line feed, vertical tab, form feed, carriage return and space
    are stripped from both ends.  The platform's function strips more
    (U+00A0, U+FEFF, ...), so [buildFilterPattern] takes it as a
    parameter; this one is the instance of the examples. *)
Definition is_space (c : ascii) : bool :=
  let n := nat_of_ascii c in
  ((9 <=? n)%nat && (n <=? 13)%nat) || (n =? 32)%nat.

Fixpoint trimStart (s : string) : string :=
  match s with
  | EmptyString => EmptyString
  | String c s' => if is_space c then trimStart s' else s
  end.

Fixpoint trimEnd (s : string) : string :=
  match s with
  | EmptyString => EmptyString
  | String c s' =>
      match trimEnd s' with
      | EmptyString => if is_space c then EmptyString else String c EmptyString
      | r => String c r
      end
  end.

Definition asciiTrim (s : string) : string := trimEnd (trimStart s).

(** The template literal that wraps a value in double quotes. *)
Definition quoted (v : string) : string :=
  (String "034"%char v ++ String "034"%char EmptyString)%string.

Section Pattern.

(** [String.prototype.trim] *)
Variable trim : string -> string.

(** What one criterion pushes on [patterns] in the [forEach] of
    [buildFilterPattern]: nothing for a blank value, for the fields
    [timestamp] and [logLevel], and for [between] on a message. *)
Definition pushed (c : SearchCriteria) : list string :=
  if negb (truthy_string (trim (value c))) then []
  else match field c with
       | FMessage =>
           match operator c with
           | OContains => [quoted (value c)]
           | OEquals => [quoted (value c)]
           | OStartsWith => [quoted (value c)]
           | ORegex => [value c]
           | OBetween => []
           end
       | FCustom => [value c]
       | FTimestamp => []
       | FLogLevel => []
       end.

Definition patterns (s : State) : list string :=
  (if truthy_string (logLevel s) then [logLevel s] else [])
    ++ flat_map pushed (criteria s).

(** [buildFilterPattern] *)
Definition buildFilterPattern (s : State) : string :=
  match patterns s with
  | [] => ""
  | [p] => p
  | ps =>
      match combineOperator s with
      | AND => String.concat " " ps
      | OR => ("(" ++ String.concat " OR " ps ++ ")")%string
      end
  end.

(** [handleSearch]: the arguments it passes to [onSearch]. *)
Definition handleSearch (s : State) : list SearchCriteria * string :=
  (criteria s, buildFilterPattern s).

End Pattern.

Definition ids (s : State) : list string := map id (criteria s).

(** The three operators that [buildFilterPattern] treats alike. *)
Definition plain (op : Operator) : Prop :=
  op = OContains \/ op = OEquals \/ op = OStartsWith.

(** A criterion of a kind that has no case in [buildFilterPattern]. *)
Definition ignored (c : SearchCriteria) : Prop :=
  field c = FTimestamp \/ field c = FLogLevel \/
  (field c = FMessage /\ operator c = OBetween).

(** An update that sets the operator and nothing else. *)
Definition setOperator (op : Operator) : Updates :=
  mkUpdates None None (Some op) None None.

(** A value that [trim] reduces to the empty string: white space only. *)
Definition blank (trim : string -> string) (v : string) : Prop :=
  trim v = "".

Definition withCombine (op : Combine) (s : State) : State :=
  mkState (criteria s) (logLevel s) op.

End AdvancedSearch.

(** ** app/components/LogVisualization.tsx: level counts and statistics

    The two rounded fields of [stats] ([timeSpanHours], [avgPerHour]) are
    floating point and the timeline and stream charts depend on the
    locale and on the key order of an object; they are left out.  The
    constants below are the ones the component computes on integers. *)

Module LogVisualization.

Section Charts.

(** [String.prototype.toLowerCase] *)
Variable toLowerCase : string -> string.

(** [event.message.toLowerCase().includes(word)] *)
Definition mentions (event : LogEvent) (word : string) : bool :=
  Filter.includes (toLowerCase (ev_message event)) word.

(** The [levels] object of [levelData]. *)
Record Levels := mkLevels {
  nERROR : nat;
  nWARN : nat;
  nINFO : nat;
  nDEBUG : nat;
  nOTHER : nat
}.

(** The body of the [forEach]: the first keyword found decides. *)
Definition count_event (levels : Levels) (event : LogEvent) : Levels :=
  if mentions event "error" || mentions event "fatal"
  then mkLevels (S (nERROR levels)) (nWARN levels) (nINFO levels)
                (nDEBUG levels) (nOTHER levels)
  else if mentions event "warn"
  then mkLevels (nERROR levels) (S (nWARN levels)) (nINFO levels)
                (nDEBUG levels) (nOTHER levels)
  else if mentions event "info"
  then mkLevels (nERROR levels) (nWARN levels) (S (nINFO levels))
                (nDEBUG levels) (nOTHER levels)
  else if mentions event "debug"
  then mkLevels (nERROR levels) (nWARN levels) (nINFO levels)
                (S (nDEBUG levels)) (nOTHER levels)
  else mkLevels (nERROR levels) (nWARN levels) (nINFO levels)
                (nDEBUG levels) (S (nOTHER levels)).

Definition count_levels (logEvents : list LogEvent) : Levels :=
  fold_left count_event logEvents (mkLevels 0 0 0 0 0).

(** [Object.entries(levels)], in the order the keys were written. *)
Definition entries (levels : Levels) : list (string * nat) :=
  [ ("ERROR", nERROR levels); ("WARN", nWARN levels); ("INFO", nINFO levels);
    ("DEBUG", nDEBUG levels); ("OTHER", nOTHER levels) ].

(** [levelData]: pairs of [level] and [count]. *)
Definition levelData (logEvents : list LogEvent) : list (string * nat) :=
  match logEvents with
  | [] => []
  | _ => filter (fun e => (0 <? snd e)%nat) (entries (count_levels logEvents))
  end.

(** The constants of [stats], for a non-empty list of events; [now] is
    [Date.now()]. *)
Definition recentEvents (now : Z) (logEvents : list LogEvent)
  : list LogEvent :=
  filter (fun event => now - 60 * 60 * 1000 <? ev_timestamp event) logEvents.

Definition errorCount (logEvents : list LogEvent) : nat :=
  List.length
    (filter (fun event => mentions event "error" || mentions event "fatal")
            logEvents).

End Charts.

(** [new Set(names).size] *)
Definition uniqueStreams (logEvents : list LogEvent) : nat :=
  List.length (nodup string_dec (map ev_logStreamName logEvents)).

(** [Math.max(...xs)] and [Math.min(...xs)] on a list with a first
    element. *)
Definition Math_max (x : Z) (xs : list Z) : Z := fold_left Z.max xs x.

Definition Math_min (x : Z) (xs : list Z) : Z := fold_left Z.min xs x.

Definition timeSpan (logEvents : list LogEvent) : Z :=
  match map ev_timestamp logEvents with
  | x :: y :: rest => Math_max x (y :: rest) - Math_min x (y :: rest)
  | _ => 0
  end.

(** The five counters of [levels] added up. *)
Definition total (levels : Levels) : nat :=
  (nERROR levels + nWARN levels + nINFO levels + nDEBUG levels
   + nOTHER levels)%nat.

Definition level_names : list string :=
  ["ERROR"; "WARN"; "INFO"; "DEBUG"; "OTHER"].

End LogVisualization.

(** ** useDebounce: what a run keeps *)

Module Settled.

(** A live timer carries the current raw value, and without a live timer
    the debounced value is the current raw value. *)
Definition consistent (h : Debounce.Hook) : Prop :=
  (forall tm, Debounce.handler h = Some tm ->
              Debounce.timer_value tm = Debounce.dep_value h) /\
  (Debounce.handler h = None ->
   Debounce.debouncedValue h = Debounce.dep_value h).

(** The raw value of the latest render, [v0] when there was none. *)
Definition current (v0 : string) (trace : list (Z * Debounce.Event))
  : string :=
  snd (last (Debounce.renders trace) (0, v0)).

End Settled.

(** ** The viewer: what a run keeps *)

Module Selection.

(** Both selection cells hold a string: neither is [null]. *)
Definition is_set (s : Viewer.State) : Prop :=
  Viewer.selectedLogGroup s <> None /\ Viewer.selectedLogStream s <> None.

(** The message of the [throw] for a response that is not [ok]. *)
Definition fallback (q : Viewer.Request) : string :=
  match q with
  | Viewer.GetGroups => "Failed to fetch log groups"
  | Viewer.PutStreams _ => "Failed to fetch log streams"
  | Viewer.PostSearch _ => "Failed to search logs"
  end.

End Selection.

(** ** Stores and states for the further examples *)

Module MoreExamples.

Import Route.

(** The first page of groups is served with the token ["t1"]; the
    request that carries ["t1"] is throttled. *)
Definition throttled : Thrown := mkThrown (Some "ThrottlingException") None.

Definition secondPageFails : Client :=
  {| sendDescribeLogGroups := fun request =>
       match dlg_nextToken request with
       | None =>
           inr (mkDescribeLogGroupsOutput (Some [Examples.groupA]) (Some "t1"))
       | Some _ => inl throttled
       end;
     sendDescribeLogStreams := fun _ => inl throttled;
     sendFilterLogEvents := fun _ => inl throttled |}.

(** Every request is answered with the same page and the token ["again"]. *)
Definition endless : Client :=
  {| sendDescribeLogGroups := fun _ =>
       inr (mkDescribeLogGroupsOutput (Some [Examples.groupA]) (Some "again"));
     sendDescribeLogStreams := fun _ => inl throttled;
     sendFilterLogEvents := fun _ => inl throttled |}.

Definition noRegion : Env := mkEnv (Some "") (Some "AKIAEXAMPLE") (Some "secret").

Definition sampleEvents : list LogEvent :=
  [ mkLogEvent 1000 "ERROR: warn threshold" "s1" "e1" 1001;
    mkLogEvent 5000 "Info: started" "s2" "e2" 5001;
    mkLogEvent 3000 "fatal failure" "s1" "e3" 3001 ].

Definition denied : Thrown :=
  mkThrown (Some "AccessDeniedException") (Some "UnrecognizedClientException").

End MoreExamples.

(** * Properties *)

(** ** Truthiness *)

Lemma truthy_string_true (s : string) : truthy_string s = true <-> s <> "".
Proof.
  unfold truthy_string. destruct (String.eqb_spec s ""); simpl; split;
    congruence.
Qed.

Lemma truthy_string_false (s : string) : truthy_string s = false <-> s = "".
Proof.
  unfold truthy_string. destruct (String.eqb_spec s ""); simpl; split;
    congruence.
Qed.

Lemma truthy_number_true (n : Z) : truthy_number n = true <-> n <> 0.
Proof.
  unfold truthy_number. destruct (Z.eqb_spec n 0); simpl; split; congruence.
Qed.

Lemma truthy_number_false (n : Z) : truthy_number n = false <-> n = 0.
Proof.
  unfold truthy_number. destruct (Z.eqb_spec n 0); simpl; split; congruence.
Qed.

(** ** route.ts: aggregation of the group listing *)

Section GroupListing.

Import Route.

Variable client : Client.

(** The loop, started anywhere on the walk, finishes it: it needs one
    unit of fuel per page, appends the pages to what it holds and sends
    one request per page. *)
Lemma GET_loop_walks outs :
  forall token acc sent fuel,
    serves client token outs ->
    tokens_nonempty outs ->
    (List.length outs <= fuel)%nat ->
    GET_loop fuel client acc token sent
    = (Done (acc ++ all_items outs), sent ++ requests_for token outs).
Proof.
  induction outs as [|out rest IH]; intros token acc sent fuel Hs Hne Hfuel.
  - inversion Hs.
  - destruct fuel as [|fuel]; [simpl in Hfuel; lia|].
    simpl in Hfuel. inversion Hs as [tk o Hsend Htok | tk o next r Hsend Htok Hrest];
      subst; simpl; rewrite Hsend, Htok; simpl.
    + rewrite app_nil_r. reflexivity.
    + inversion Hne as [|? ? Hout Hne']; subst.
      assert (Ht : truthy_string next = true).
      { apply truthy_string_true. intros ->. apply Hout. exact Htok. }
      rewrite Ht, (IH (Some next)); auto; [|lia].
      rewrite <- !app_assoc. reflexivity.
Qed.

End GroupListing.

Lemma getClient_configured env aws :
  Route.configured env -> Route.getClient env aws = inr aws.
Proof.
  intros (Hr & Ha & Hs). unfold Route.getClient. rewrite Hr, Ha, Hs.
  reflexivity.
Qed.

(** C3 (as amended).  When the store serves the pages [outs] from the
    start, every continuation token among them being a non-empty string,
    GET with enough fuel (one unit per page) sends one request per page,
    the first without a token and each later one with the token the page
    before returned, and answers 200 with the concatenation of the pages'
    items, in page order and in item order within a page. *)
Theorem GET_aggregates_pages (env : Route.Env) (aws : Route.Client)
    (outs : list Route.DescribeLogGroupsOutput) (fuel : nat) :
  Route.configured env ->
  Route.serves aws None outs ->
  Route.tokens_nonempty outs ->
  (List.length outs <= fuel)%nat ->
  Route.GET fuel env aws
  = (Some (Route.ok_json (Route.JsonLogGroups (Route.all_items outs))),
     Route.requests_for None outs).
Proof.
  intros Henv Hs Hne Hfuel. unfold Route.GET.
  rewrite (getClient_configured env aws Henv).
  rewrite (GET_loop_walks aws outs None [] [] fuel Hs Hne Hfuel).
  reflexivity.
Qed.

Lemma threePages_serves :
  Route.serves Examples.threePages None Examples.threePages_outs.
Proof.
  unfold Examples.threePages_outs.
  eapply Route.serves_more; [reflexivity | reflexivity |].
  eapply Route.serves_more; [reflexivity | reflexivity |].
  apply Route.serves_last; reflexivity.
Qed.

Lemma GET_aggregates_pages_witness :
  Route.GET 3 Examples.env Examples.threePages
  = (Some (Route.ok_json
             (Route.JsonLogGroups
                [Examples.groupA; Examples.groupB; Examples.groupC])),
     [ Route.mkDescribeLogGroupsInput 50 None;
       Route.mkDescribeLogGroupsInput 50 (Some "t1");
       Route.mkDescribeLogGroupsInput 50 (Some "t2") ]).
Proof.
  apply (GET_aggregates_pages Examples.env Examples.threePages
           Examples.threePages_outs 3).
  - repeat split.
  - exact threePages_serves.
  - repeat constructor; discriminate.
  - simpl. lia.
Defined.

(** C3 as stated fails on a store whose first page carries the empty
    string as its continuation token: the loop tests the token for
    truthiness, stops after that page and answers with the first page
    only, whatever the fuel; the second page, served under that token, is
    never requested. *)
Lemma GET_stops_at_empty_token :
  Route.serves Examples.emptyToken None Examples.emptyToken_outs /\
  Route.all_items Examples.emptyToken_outs
  = [Examples.groupA; Examples.groupB] /\
  (forall fuel : nat,
      Route.GET (S fuel) Examples.env Examples.emptyToken
      = (Some (Route.ok_json (Route.JsonLogGroups [Examples.groupA])),
         [Route.mkDescribeLogGroupsInput 50 None])) /\
  [Examples.groupA] <> Route.all_items Examples.emptyToken_outs.
Proof.
  split; [|split; [|split]].
  - eapply Route.serves_more; [reflexivity | reflexivity |].
    apply Route.serves_last; reflexivity.
  - reflexivity.
  - intros fuel. reflexivity.
  - discriminate.
Qed.

(** ** route.ts: the stream listing *)

(** PUT sends exactly one [DescribeLogStreams] request, without a token,
    and answers with the streams of that one output, whether or not the
    output carries a continuation token. *)
Lemma PUT_single_request env aws g out :
  Route.configured env ->
  Route.sendDescribeLogStreams aws (Route.mkDescribeLogStreamsInput g 50 None)
  = inr out ->
  Route.PUT env aws g
  = (Route.ok_json (Route.JsonLogStreams (or_nil (Route.dls_logStreams out))),
     [Route.mkDescribeLogStreamsInput g 50 None]).
Proof.
  intros Henv Hsend. unfold Route.PUT.
  rewrite (getClient_configured env aws Henv), Hsend. reflexivity.
Qed.

(** C4 at a group whose stream listing spans two pages: the handler sends
    one request, answers with the first page and drops the continuation
    token; the second page, which the store serves under that token,
    never reaches the response. *)
Theorem PUT_returns_first_page_only :
  Route.PUT Examples.env Examples.twoStreamPages (Some "/svc/a")
  = (Route.ok_json (Route.JsonLogStreams [Examples.stream1]),
     [Route.mkDescribeLogStreamsInput (Some "/svc/a") 50 None]) /\
  Route.sendDescribeLogStreams Examples.twoStreamPages
    (Route.mkDescribeLogStreamsInput (Some "/svc/a") 50 None)
  = inr (Route.mkDescribeLogStreamsOutput (Some [Examples.stream1]) (Some "p2")) /\
  Route.sendDescribeLogStreams Examples.twoStreamPages
    (Route.mkDescribeLogStreamsInput (Some "/svc/a") 50 (Some "p2"))
  = inr (Route.mkDescribeLogStreamsOutput (Some [Examples.stream2]) None).
Proof. repeat split. Qed.

(** ** route.ts: the parameters of a search *)

Lemma effective_limit_cases (limit : option Z) :
  Route.effective_limit limit
  = match limit with
    | Some l => if (l =? 0) || (10000 <? l) then 100 else l
    | None => 100
    end.
Proof.
  destruct limit as [l|]; [|reflexivity].
  unfold Route.effective_limit, truthy_number.
  destruct (Z.eqb_spec l 0); simpl; [reflexivity|].
  destruct (Z.leb_spec l 10000), (Z.ltb_spec 10000 l); try reflexivity; lia.
Qed.

(** The request POST sends is [POST_params] of the payload. *)
Lemma POST_sends env aws b :
  Route.configured env ->
  snd (Route.POST env aws b) = [Route.POST_params b].
Proof.
  intros Henv. unfold Route.POST.
  rewrite (getClient_configured env aws Henv).
  destruct (Route.sendFilterLogEvents aws (Route.POST_params b)); reflexivity.
Qed.

(** C5 (as amended).  The limit POST forwards to the store is the
    supplied limit whenever that limit is not zero and at most 10000 (so
    1 and negative limits are forwarded as they are), and 100 when the
    limit is absent, zero or above 10000. *)
Theorem POST_limit (env : Route.Env) (aws : Route.Client)
    (b : Route.SearchBody) :
  Route.configured env ->
  snd (Route.POST env aws b) = [Route.POST_params b] /\
  (forall l, Route.b_limit b = Some l -> l <> 0 -> l <= 10000 ->
             Route.fle_limit (Route.POST_params b) = l) /\
  (Route.b_limit b = None -> Route.fle_limit (Route.POST_params b) = 100) /\
  (Route.b_limit b = Some 0 -> Route.fle_limit (Route.POST_params b) = 100) /\
  (forall l, Route.b_limit b = Some l -> 10000 < l ->
             Route.fle_limit (Route.POST_params b) = 100).
Proof.
  intros Henv.
  split; [apply POST_sends; exact Henv|].
  simpl. rewrite effective_limit_cases.
  repeat split.
  - intros l -> Hz Hle.
    destruct (Z.eqb_spec l 0); [contradiction|].
    destruct (Z.ltb_spec 10000 l); [lia | reflexivity].
  - intros ->. reflexivity.
  - intros ->. reflexivity.
  - intros l -> Hgt.
    destruct (Z.ltb_spec 10000 l); [|lia]. rewrite orb_true_r. reflexivity.
Qed.

Lemma POST_limit_witness :
  Route.configured Examples.env /\
  Route.fle_limit
    (Route.POST_params
       (Route.mkSearchBody (Some "/svc/a") None None None None (Some 50))) = 50 /\
  Route.fle_limit
    (Route.POST_params
       (Route.mkSearchBody (Some "/svc/a") None None None None (Some 20000)))
  = 100.
Proof.
  assert (Henv : Route.configured Examples.env) by (repeat split).
  split; [exact Henv|]. split.
  - destruct (POST_limit Examples.env Examples.threePages
                (Route.mkSearchBody (Some "/svc/a") None None None None (Some 50))
                Henv) as (_ & Hin & _).
    apply Hin; [reflexivity | lia | lia].
  - destruct (POST_limit Examples.env Examples.threePages
                (Route.mkSearchBody (Some "/svc/a") None None None None
                                    (Some 20000))
                Henv) as (_ & _ & _ & _ & Hover).
    apply (Hover 20000); [reflexivity | lia].
Defined.

(** C5 as stated fails at the limits 1 and -5: both lie outside
    (1, 10000], so the claim asks for 100, and both are forwarded
    unchanged. *)
Lemma limit_one_and_negative_forwarded :
  Route.fle_limit
    (Route.POST_params
       (Route.mkSearchBody (Some "/svc/a") None None None None (Some 1))) = 1 /\
  Route.fle_limit
    (Route.POST_params
       (Route.mkSearchBody (Some "/svc/a") None None None None (Some (-5))))
  = -5 /\
  ~ (1 < 1 <= 10000) /\ ~ (1 < -5 <= 10000) /\ 1 <> 100 /\ -5 <> 100.
Proof. repeat split; try reflexivity; lia. Qed.

(** C10.  In POST a stream name or filter pattern that is the empty
    string, a start or end time that is 0 and a limit that is 0 give the
    same request to the store, and the same response, as a payload
    without that field: the stream name, the pattern and the times are
    left out of the request.  In particular a search from the epoch
    (start time 0) is the search without a lower bound. *)
Theorem POST_falsy_fields_absent (env : Route.Env) (aws : Route.Client)
    (g sn fp : option string) (st et lim : option Z) :
  Route.POST env aws (Route.mkSearchBody g (Some "") fp st et lim)
  = Route.POST env aws (Route.mkSearchBody g None fp st et lim) /\
  Route.POST env aws (Route.mkSearchBody g sn (Some "") st et lim)
  = Route.POST env aws (Route.mkSearchBody g sn None st et lim) /\
  Route.POST env aws (Route.mkSearchBody g sn fp (Some 0) et lim)
  = Route.POST env aws (Route.mkSearchBody g sn fp None et lim) /\
  Route.POST env aws (Route.mkSearchBody g sn fp st (Some 0) lim)
  = Route.POST env aws (Route.mkSearchBody g sn fp st None lim) /\
  Route.POST env aws (Route.mkSearchBody g sn fp st et (Some 0))
  = Route.POST env aws (Route.mkSearchBody g sn fp st et None) /\
  Route.fle_logStreamNames
    (Route.POST_params (Route.mkSearchBody g (Some "") fp st et lim)) = None /\
  Route.fle_filterPattern
    (Route.POST_params (Route.mkSearchBody g sn (Some "") st et lim)) = None /\
  Route.fle_startTime
    (Route.POST_params (Route.mkSearchBody g sn fp (Some 0) et lim)) = None /\
  Route.fle_endTime
    (Route.POST_params (Route.mkSearchBody g sn fp st (Some 0) lim)) = None.
Proof. repeat split. Qed.

(** ** The filtered views *)

Section StringFacts.

Import Filter.

Local Open Scope string_scope.

Lemma startsWith_spec (p : string) :
  forall s, startsWith s p = true <-> exists post, s = p ++ post.
Proof.
  induction p as [|a p IH]; intros s; simpl.
  - split; [intros _; exists s; reflexivity | destruct s; reflexivity].
  - destruct s as [|b s]; simpl.
    + split; [discriminate | intros (post & H); discriminate].
    + rewrite andb_true_iff, IH. split.
      * intros (Hab & post & ->). apply Ascii.eqb_eq in Hab. subst b.
        exists post. reflexivity.
      * intros (post & H). injection H as -> ->. split.
        -- apply Ascii.eqb_refl.
        -- exists post. reflexivity.
Qed.

Lemma includes_unfold (s sub : string) :
  includes s sub
  = startsWith s sub
    || match s with
       | EmptyString => false
       | String _ s' => includes s' sub
       end.
Proof. destruct s; reflexivity. Qed.

Lemma includes_spec (sub : string) :
  forall s, includes s sub = true <-> exists pre post, s = pre ++ sub ++ post.
Proof.
  intros s. split.
  - induction s as [|c s IH]; rewrite includes_unfold, orb_true_iff.
    + intros [H | H]; [|discriminate].
      apply startsWith_spec in H. destruct H as (post & ->).
      exists "", post. reflexivity.
    + intros [H | H].
      * apply startsWith_spec in H. destruct H as (post & ->).
        exists "", post. reflexivity.
      * destruct (IH H) as (pre & post & ->).
        exists (String c pre), post. reflexivity.
  - intros (pre & post & ->). induction pre as [|c pre IH].
    + rewrite includes_unfold, orb_true_iff. left.
      apply startsWith_spec. exists post. reflexivity.
    + change (String c pre ++ sub ++ post)
        with (String c (pre ++ sub ++ post)).
      rewrite includes_unfold, orb_true_iff. right. exact IH.
Qed.

Lemma eq_ignore_case_lower (a : string) :
  forall b, eq_ignore_case a b <-> asciiLowerCase a = asciiLowerCase b.
Proof.
  induction a as [|x a IH]; intros [|y b]; simpl; split;
    try tauto; try discriminate.
  - intros (Hxy & Hab). apply IH in Hab. congruence.
  - intros H. injection H as Hxy Hab. split; [exact Hxy | apply IH, Hab].
Qed.

(** The test of the source decides the containment of the
    specification, whatever the lowering function. *)
Lemma includes_lower_spec (toLowerCase : string -> string) (name q : string) :
  includes (toLowerCase name) (toLowerCase q) = true
  <-> contains_ci toLowerCase name q.
Proof. apply includes_spec. Qed.

End StringFacts.


(** [selects] leaves no choice: the selected list is determined. *)
Lemma selects_unique {A : Type} (P : A -> Prop) (l : list A) :
  forall s1 s2, Filter.selects P l s1 -> Filter.selects P l s2 -> s1 = s2.
Proof.
  induction l as [|x l IH]; intros s1 s2 H1 H2;
    inversion H1; inversion H2; subst; try reflexivity; try contradiction.
  - f_equal. auto.
  - auto.
Qed.




(** ** useDebounce *)

Lemma toInt32_small (d : Z) :
  0 <= d < 2147483648 -> Debounce.toInt32 d = d.
Proof.
  intros Hd. unfold Debounce.toInt32. rewrite Z.mod_small; lia.
Qed.

(** Below 2^31 the timer waits at least for its delay. *)
Lemma wait_ge (d : Z) : d < 2147483648 -> d <= Debounce.wait d.
Proof.
  intros Hd. unfold Debounce.wait.
  destruct (Z_lt_le_dec d 0) as [Hneg | Hpos]; [lia|].
  rewrite toInt32_small by lia. lia.
Qed.

Lemma wait_nonneg (d : Z) : 0 <= Debounce.wait d.
Proof. unfold Debounce.wait. lia. Qed.

Lemma due_timer (t d : Z) (v : string) :
  Debounce.due (Debounce.mkTimer t d v) = t + Debounce.wait d.
Proof. reflexivity. Qed.

Section DebounceFacts.

Import Debounce.

Variable d : Z.

Lemma render_new_value (h : Hook) (t : Z) (v : string) :
  v <> dep_value h ->
  render t v d h
  = mkHook (debouncedValue h) v d (Some (mkTimer t d v)).
Proof.
  intros Hv. unfold render.
  destruct (String.eqb_spec v (dep_value h)); [contradiction | reflexivity].
Qed.

Lemma render_same_value (h : Hook) (t : Z) :
  dep_delay h = d -> render t (dep_value h) d h = h.
Proof.
  intros Hd. unfold render. rewrite String.eqb_refl, Hd, Z.eqb_refl.
  reflexivity.
Qed.

(** A render leaves the value the hook returns as it is. *)
Lemma render_returns_same (h : Hook) (t : Z) (v : string) :
  useDebounce (render t v d h) = useDebounce h.
Proof.
  unfold render, useDebounce.
  destruct ((v =? dep_value h)%string && (d =? dep_delay h)); reflexivity.
Qed.

Lemma run_tracks (trace : list (Z * Event)) :
  forall s s' t0 v0,
    tracks d t0 v0 (hook s) ->
    delay_is d trace ->
    run trace s = Some s' ->
    tracks d (fst (latest t0 v0 trace)) (snd (latest t0 v0 trace)) (hook s').
Proof.
  induction trace as [|[t e] rest IH]; intros s s' t0 v0 Htr Hd Hrun.
  - simpl in *. injection Hrun as <-. exact Htr.
  - simpl in Hrun. destruct (t <? clock s); [discriminate|].
    destruct Htr as (Hv & Hdel & Hh).
    destruct e as [v d'|]; simpl in Hd |- *.
    + destruct Hd as (-> & Hd).
      destruct (String.eqb_spec v v0) as [-> | Hne].
      * assert (Hsame : render t v0 d (hook s) = hook s).
        { rewrite <- Hv at 1. apply render_same_value. exact Hdel. }
        rewrite Hsame in Hrun.
        eapply IH; [ | exact Hd | exact Hrun].
        unfold tracks. simpl. auto.
      * rewrite render_new_value in Hrun by congruence.
        eapply IH; [ | exact Hd | exact Hrun].
        simpl. unfold tracks. simpl. auto.
    + unfold fire in Hrun.
      destruct (handler (hook s)) as [tm|] eqn:Hh'; [|discriminate].
      destruct (due tm <=? t); [|discriminate].
      eapply IH; [ | exact Hd | exact Hrun].
      unfold tracks. simpl. auto.
Qed.

(** (a) A timer that runs emits the latest raw value, no earlier than
    [d] after that value was put in, and the hook returns that value from
    then on. *)
Lemma settles_after_quiescence t0 v0 trace s t s' :
  d < 2147483648 ->
  delay_is d trace ->
  run trace (start t0 v0 d) = Some s ->
  step (t, Timeout) s = Some s' ->
  emitted s' = emitted s ++ [(t, snd (latest t0 v0 trace))] /\
  fst (latest t0 v0 trace) + d <= t /\
  useDebounce (hook s') = snd (latest t0 v0 trace).
Proof.
  intros Hsmall Hd Hrun Hstep.
  assert (Htr : tracks d t0 v0 (hook (start t0 v0 d))).
  { unfold tracks. simpl. auto. }
  pose proof (run_tracks trace _ _ _ _ Htr Hd Hrun) as (Hv & Hdel & Hh).
  simpl in Hstep. destruct (t <? clock s); [discriminate|].
  unfold fire in Hstep. destruct Hh as [Hh | Hh]; rewrite Hh in Hstep;
    [discriminate|].
  rewrite due_timer in Hstep.
  destruct (Z.leb_spec (fst (latest t0 v0 trace) + wait d) t);
    [|discriminate].
  injection Hstep as <-. unfold useDebounce.
  cbn [emitted hook debouncedValue timer_value].
  pose proof (wait_ge d Hsmall). repeat split. lia.
Qed.

(** (b) A new raw value replaces the pending timer by its own, which
    cannot run before [d] has passed. *)
Lemma new_value_cancels (h : Hook) (t : Z) (v : string) :
  d < 2147483648 ->
  v <> dep_value h ->
  handler (render t v d h) = Some (mkTimer t d v) /\
  (forall t', t' < t + d -> fire t' (render t v d h) = None).
Proof.
  intros Hsmall Hv. rewrite render_new_value by exact Hv.
  cbn [handler]. split; [reflexivity|].
  intros t' Ht'. unfold fire. cbn [handler]. rewrite due_timer.
  pose proof (wait_ge d Hsmall).
  destruct (Z.leb_spec (t + wait d) t'); [lia | reflexivity].
Qed.

Lemma run_clock (trace : list (Z * Event)) :
  forall s s' t v,
    run trace s = Some s' -> In (t, v) (renders trace) -> clock s <= t.
Proof.
  induction trace as [|[t e] rest IH]; intros s s' t' v' Hrun Hin.
  - contradiction.
  - simpl in Hrun. destruct (Z.ltb_spec t (clock s)); [discriminate|].
    destruct e as [v d'|]; simpl in Hin.
    + destruct Hin as [Heq | Hin].
      * injection Heq as <- <-. assumption.
      * specialize (IH _ _ _ _ Hrun Hin). simpl in IH. lia.
    + destruct (fire t (hook s)) as [[h v]|]; [|discriminate].
      specialize (IH _ _ _ _ Hrun Hin). simpl in IH. lia.
Qed.

Lemma run_idle (trace : list (Z * Event)) (s s' : Sys) :
  run trace s = Some s' ->
  handler (hook s) = None ->
  renders trace = [] ->
  trace = [].
Proof.
  destruct trace as [|[t e] rest]; [reflexivity|].
  intros Hrun Hh Hr. simpl in Hrun.
  destruct (t <? clock s); [discriminate|].
  destruct e; [discriminate|].
  unfold fire in Hrun. rewrite Hh in Hrun. discriminate.
Qed.

Lemma last_cons {A : Type} (l : list A) :
  forall x y : A, last (x :: l) y = last l x.
Proof.
  induction l as [|z l IH]; intros x y; [reflexivity|].
  change (last (x :: z :: l) y) with (last (z :: l) y).
  rewrite (IH z y), (IH z x). reflexivity.
Qed.

Lemma final_input_cons t0 v0 t v inputs :
  final_input t0 v0 ((t, v) :: inputs) = final_input t v inputs.
Proof. apply last_cons. Qed.

(** What a run over a burst can be, from any point of it: while inputs
    remain the timer of the previous input cannot run.  So either the run
    ends with a timer pending, and then nothing was emitted and the hook
    returns what it returned before; or it ends with none, and then the
    only emission is that of the final input, whose value the hook
    returns. *)
Lemma burst_run (trace : list (Z * Event)) :
  d < 2147483648 ->
  forall s s' t0 v0 inputs,
    handler (hook s) = Some (mkTimer t0 d v0) ->
    dep_value (hook s) = v0 ->
    burst d t0 v0 inputs ->
    renders trace = inputs ->
    delay_is d trace ->
    run trace s = Some s' ->
    (handler (hook s') <> None ->
     emitted s' = emitted s /\
     debouncedValue (hook s') = debouncedValue (hook s)) /\
    (handler (hook s') = None ->
     exists t,
       emitted s' = emitted s ++ [(t, snd (final_input t0 v0 inputs))] /\
       fst (final_input t0 v0 inputs) + wait d <= t /\
       debouncedValue (hook s') = snd (final_input t0 v0 inputs)).
Proof.
  intros Hsmall.
  induction trace as [|[t e] rest IH];
    intros s s' t0 v0 inputs Hh Hv Hb Hr Hd Hrun.
  - simpl in Hrun. injection Hrun as <-. split; [auto|].
    intros Hnone. congruence.
  - simpl in Hrun. destruct (Z.ltb_spec t (clock s)); [discriminate|].
    destruct e as [v d'|].
    + simpl in Hr, Hd. destruct Hd as (-> & Hd). subst inputs.
      simpl in Hb. destruct Hb as (Hne & Ht & Hb).
      rewrite render_new_value in Hrun by congruence.
      rewrite final_input_cons.
      eapply (IH _ _ t v (renders rest)) in Hrun; simpl; auto.
    + simpl in Hr, Hd. unfold fire in Hrun. rewrite Hh in Hrun.
      rewrite due_timer in Hrun. cbn [timer_value] in Hrun.
      destruct (Z.leb_spec (t0 + wait d) t); [|discriminate].
      destruct inputs as [|[t' v'] inputs'].
      * apply run_idle in Hrun as Hnil; [|reflexivity|exact Hr].
        subst rest. simpl in Hrun. injection Hrun as <-. simpl. split.
        -- intros Hpending. exfalso. apply Hpending. reflexivity.
        -- intros _. exists t. unfold final_input. simpl. auto.
      * exfalso. simpl in Hb. destruct Hb as (_ & Ht' & _).
        assert (Hin : In (t', v') (renders rest))
          by (rewrite Hr; left; reflexivity).
        pose proof (run_clock _ _ _ _ _ Hrun Hin) as Hc. simpl in Hc.
        pose proof (wait_ge d Hsmall). lia.
Qed.

(** (d) The timer of the final input of a burst does run: delivering
    the inputs and then letting the timer run at any time from its due
    time on is a run of the hook, and it emits the final value. *)
Lemma burst_emits (inputs : list (Z * string)) :
  forall s t0 v0 t,
    handler (hook s) = Some (mkTimer t0 d v0) ->
    dep_value (hook s) = v0 ->
    clock s = t0 ->
    burst d t0 v0 inputs ->
    fst (final_input t0 v0 inputs) + wait d <= t ->
    exists s',
      run (as_renders d inputs ++ [(t, Timeout)]) s = Some s' /\
      handler (hook s') = None /\
      emitted s' = emitted s ++ [(t, snd (final_input t0 v0 inputs))].
Proof.
  induction inputs as [|[t1 v1] rest IH]; intros s t0 v0 t Hh Hv Hc Hb Ht.
  - unfold final_input in *. simpl in *.
    pose proof (wait_nonneg d).
    destruct (Z.ltb_spec t (clock s)); [lia|].
    unfold fire. rewrite Hh, due_timer.
    destruct (Z.leb_spec (t0 + wait d) t); [|lia].
    eexists. repeat split.
  - simpl in Hb. destruct Hb as (Hne & Ht1 & Hb).
    rewrite final_input_cons in Ht |- *.
    simpl. destruct (Z.ltb_spec t1 (clock s)); [lia|].
    rewrite render_new_value by congruence.
    match goal with
    | |- exists s', run _ ?y = _ /\ _ => apply (IH y t1 v1 t)
    end; simpl; auto.
Qed.

(** The hook returns its value from before a run until a timer runs, and
    from then on the value of the last timer that ran. *)
Lemma run_returns_last_emitted (trace : list (Z * Event)) :
  forall s s',
    run trace s = Some s' ->
    exists new,
      emitted s' = emitted s ++ new /\
      useDebounce (hook s') = snd (last new (0, useDebounce (hook s))).
Proof.
  induction trace as [|[t e] rest IH]; intros s s' Hrun.
  - simpl in Hrun. injection Hrun as <-. exists []. rewrite app_nil_r. auto.
  - simpl in Hrun. destruct (t <? clock s); [discriminate|].
    destruct e as [v d'|].
    + destruct (IH _ _ Hrun) as (new & He & Hret). exists new.
      cbn [emitted hook] in He, Hret. split; [exact He|].
      rewrite Hret. unfold useDebounce, render.
      destruct ((v =? dep_value (hook s))%string && (d' =? dep_delay (hook s)));
        reflexivity.
    + destruct (fire t (hook s)) as [[h v]|] eqn:Hfire; [|discriminate].
      destruct (IH _ _ Hrun) as (new & He & Hret).
      cbn [emitted hook] in He, Hret.
      exists ((t, v) :: new). rewrite He, <- app_assoc. split; [reflexivity|].
      rewrite Hret, last_cons.
      assert (Hv : useDebounce h = v).
      { unfold fire in Hfire. destruct (handler (hook s)) as [tm|];
          [|discriminate].
        destruct (due tm <=? t); [|discriminate].
        injection Hfire as <- <-. reflexivity. }
      rewrite Hv. destruct new as [|x new']; [reflexivity|].
      rewrite !last_cons. reflexivity.
Qed.

End DebounceFacts.

Lemma wait_small (d : Z) : 0 <= d < 2147483648 -> Debounce.wait d = d.
Proof.
  intros Hd. unfold Debounce.wait. rewrite toInt32_small by exact Hd. lia.
Qed.

(** C8 (as amended).  For a debounced value with a quiescence duration
    [d] from 0 to 2^31 - 1:
    - a timer that runs emits the latest raw value, at a time at least
      [d] after that value was put in, so no newer raw value has
      superseded it, and the hook returns that value from then on;
    - a new raw value replaces the pending timer by its own, which cannot
      run before [d] has passed: the emission of the previous value is
      cancelled;
    - hence, for raw inputs each less than [d] after the one before, a run
      of the hook over them that ends with no timer pending has emitted
      exactly one value since the first input, the final one, at a time
      at least [d] after the final input, and the hook returns it;
    - a run over them that ends with a timer pending has emitted nothing
      since the first input, and the hook still returns what it returned
      before the first input;
    - the emission does happen: the timer of the final input can run at
      any time from [d] after it on;
    - a render never changes what the hook returns, and over any run the
      hook returns its earlier value until a timer runs and then the
      value of the last timer that ran. *)
Theorem debounce_coalesces (d : Z) :
  0 <= d < 2147483648 ->
  (forall t0 v0 trace s t s',
      Debounce.delay_is d trace ->
      Debounce.run trace (Debounce.start t0 v0 d) = Some s ->
      Debounce.step (t, Debounce.Timeout) s = Some s' ->
      Debounce.emitted s'
      = Debounce.emitted s ++ [(t, snd (Debounce.latest t0 v0 trace))] /\
      fst (Debounce.latest t0 v0 trace) + d <= t /\
      Debounce.useDebounce (Debounce.hook s')
      = snd (Debounce.latest t0 v0 trace)) /\
  (forall h t v,
      v <> Debounce.dep_value h ->
      Debounce.handler (Debounce.render t v d h)
      = Some (Debounce.mkTimer t d v) /\
      (forall t', t' < t + d ->
                  Debounce.fire t' (Debounce.render t v d h) = None)) /\
  (forall s0 t1 v1 inputs trace s',
      v1 <> Debounce.dep_value (Debounce.hook s0) ->
      Debounce.burst d t1 v1 inputs ->
      Debounce.renders trace = inputs ->
      Debounce.delay_is d trace ->
      Debounce.run ((t1, Debounce.Render v1 d) :: trace) s0 = Some s' ->
      Debounce.handler (Debounce.hook s') = None ->
      exists t,
        Debounce.emitted s'
        = Debounce.emitted s0
            ++ [(t, snd (Debounce.final_input t1 v1 inputs))] /\
        fst (Debounce.final_input t1 v1 inputs) + d <= t /\
        Debounce.useDebounce (Debounce.hook s')
        = snd (Debounce.final_input t1 v1 inputs)) /\
  (forall s0 t1 v1 inputs trace s',
      v1 <> Debounce.dep_value (Debounce.hook s0) ->
      Debounce.burst d t1 v1 inputs ->
      Debounce.renders trace = inputs ->
      Debounce.delay_is d trace ->
      Debounce.run ((t1, Debounce.Render v1 d) :: trace) s0 = Some s' ->
      Debounce.handler (Debounce.hook s') <> None ->
      Debounce.emitted s' = Debounce.emitted s0 /\
      Debounce.useDebounce (Debounce.hook s')
      = Debounce.useDebounce (Debounce.hook s0)) /\
  (forall s0 t1 v1 inputs t,
      v1 <> Debounce.dep_value (Debounce.hook s0) ->
      Debounce.clock s0 <= t1 ->
      Debounce.burst d t1 v1 inputs ->
      fst (Debounce.final_input t1 v1 inputs) + d <= t ->
      exists s',
        Debounce.run ((t1, Debounce.Render v1 d)
                        :: Debounce.as_renders d inputs
                        ++ [(t, Debounce.Timeout)]) s0 = Some s' /\
        Debounce.handler (Debounce.hook s') = None /\
        Debounce.emitted s'
        = Debounce.emitted s0
            ++ [(t, snd (Debounce.final_input t1 v1 inputs))]) /\
  (forall h t v,
      Debounce.useDebounce (Debounce.render t v d h)
      = Debounce.useDebounce h) /\
  (forall s0 trace s',
      Debounce.run trace s0 = Some s' ->
      exists new,
        Debounce.emitted s' = Debounce.emitted s0 ++ new /\
        Debounce.useDebounce (Debounce.hook s')
        = snd (last new (0, Debounce.useDebounce (Debounce.hook s0)))).
Proof.
  intros Hd.
  assert (Hsmall : d < 2147483648) by lia.
  pose proof (wait_small d Hd) as Hwait.
  assert (Hburst :
            forall s0 t1 v1 inputs trace s',
              v1 <> Debounce.dep_value (Debounce.hook s0) ->
              Debounce.burst d t1 v1 inputs ->
              Debounce.renders trace = inputs ->
              Debounce.delay_is d trace ->
              Debounce.run ((t1, Debounce.Render v1 d) :: trace) s0 = Some s' ->
              (Debounce.handler (Debounce.hook s') <> None ->
               Debounce.emitted s' = Debounce.emitted s0 /\
               Debounce.debouncedValue (Debounce.hook s')
               = Debounce.debouncedValue (Debounce.hook s0)) /\
              (Debounce.handler (Debounce.hook s') = None ->
               exists t,
                 Debounce.emitted s'
                 = Debounce.emitted s0
                     ++ [(t, snd (Debounce.final_input t1 v1 inputs))] /\
                 fst (Debounce.final_input t1 v1 inputs) + Debounce.wait d <= t /\
                 Debounce.debouncedValue (Debounce.hook s')
                 = snd (Debounce.final_input t1 v1 inputs))).
  { intros s0 t1 v1 inputs trace s' Hv Hb Hr Hdel Hrun.
    simpl in Hrun. destruct (t1 <? Debounce.clock s0); [discriminate|].
    rewrite render_new_value in Hrun by exact Hv.
    pose proof (fun Hh Hval =>
                  burst_run d trace Hsmall _ s' t1 v1 inputs
                    Hh Hval Hb Hr Hdel Hrun) as Hco.
    exact (Hco eq_refl eq_refl). }
  split; [|split; [|split; [|split; [|split; [|split]]]]].
  - intros. eapply settles_after_quiescence; eauto.
  - intros. apply new_value_cancels; assumption.
  - intros s0 t1 v1 inputs trace s' Hv Hb Hr Hdel Hrun Hnone.
    destruct (Hburst s0 t1 v1 inputs trace s' Hv Hb Hr Hdel Hrun)
      as (_ & Hdone).
    destruct (Hdone Hnone) as (t & He & Ht & Hval).
    exists t. rewrite Hwait in Ht. unfold Debounce.useDebounce. auto.
  - intros s0 t1 v1 inputs trace s' Hv Hb Hr Hdel Hrun Hpending.
    destruct (Hburst s0 t1 v1 inputs trace s' Hv Hb Hr Hdel Hrun)
      as (Hsilent & _).
    exact (Hsilent Hpending).
  - intros s0 t1 v1 inputs t Hv Hc Hb Ht.
    simpl. destruct (Z.ltb_spec t1 (Debounce.clock s0)); [lia|].
    rewrite render_new_value by exact Hv.
    match goal with
    | |- exists s', Debounce.run _ ?y = _ /\ _ =>
        apply (burst_emits d inputs y t1 v1 t)
    end; simpl; auto. rewrite Hwait. exact Ht.
  - intros h t v. apply render_returns_same.
  - intros s0 trace s' Hrun. exact (run_returns_last_emitted trace s0 s' Hrun).
Qed.

(** The inputs ["a"], ["ab"], ["abc"] at times 50, 150 and 250 with
    [d = 300]: the timer runs at 560 and emits ["abc"] only. *)
Lemma debounce_coalesces_witness :
  exists s',
    Debounce.run [ (50, Debounce.Render "a" 300);
                   (150, Debounce.Render "ab" 300);
                   (250, Debounce.Render "abc" 300);
                   (560, Debounce.Timeout) ]
                 (Debounce.start 0 "" 300) = Some s' /\
    Debounce.handler (Debounce.hook s') = None /\
    Debounce.emitted s' = [(560, "abc")].
Proof.
  destruct (debounce_coalesces 300) as (_ & _ & _ & _ & Hemits & _); [lia|].
  apply (Hemits (Debounce.start 0 "" 300) 50 "a" [(150, "ab"); (250, "abc")] 560).
  - discriminate.
  - simpl. lia.
  - simpl. repeat split; try discriminate; lia.
  - simpl. lia.
Defined.

(** C8 as stated fails for a quiescence duration of 2^31: [setTimeout]
    keeps its delay in a signed 32-bit integer, so the timer of the raw
    value ["a"], put in at time 10, may run at time 15: the value is
    emitted, and returned by the hook, long before [d] has passed. *)
Lemma timer_runs_at_once :
  Debounce.run [ (10, Debounce.Render "a" 2147483648); (15, Debounce.Timeout) ]
               (Debounce.start 0 "" 2147483648)
  = Some (Debounce.mkSys (Debounce.mkHook "a" "a" 2147483648 None) 15
                         [(15, "a")]) /\
  Debounce.useDebounce (Debounce.mkHook "a" "a" 2147483648 None) = "a" /\
  ~ (10 + 2147483648 <= 15).
Proof. split; [vm_compute; reflexivity | split; [reflexivity | lia]]. Qed.

(** ** The dropdowns: which index reaches scrollToIndex *)

Section DropdownFacts.

Import Dropdown.




Lemma run_cons (e : Event) (rest : list Event) (v : View) :
  snd (run (e :: rest) v)
  = snd (step e v) ++ snd (run rest (handle e v)).
Proof.
  change (run (e :: rest) v)
    with (let (v', calls) := step e v in
          let (v'', calls') := run rest v' in (v'', calls ++ calls')).
  unfold step.
  destruct (run rest (handle e v)) as [v'' calls']. reflexivity.
Qed.


End DropdownFacts.




(** ** The viewer: searches, selections and arriving responses *)

Section InFlight.

Context {A : Type}.

Lemma nth_error_here (l r : list A) (x : A) :
  nth_error (l ++ x :: r) (List.length l) = Some x.
Proof. induction l as [|a l IH]; simpl; [reflexivity | exact IH]. Qed.

Lemma remove_nth_here (l r : list A) (x : A) :
  Viewer.remove_nth (List.length l) (l ++ x :: r) = l ++ r.
Proof.
  induction l as [|a l IH]; simpl; [reflexivity | rewrite IH; reflexivity].
Qed.

Lemma nth_error_next (l r : list A) (x z : A) :
  nth_error (l ++ x :: z :: r) (S (List.length l)) = Some z.
Proof. induction l as [|a l IH]; simpl; [reflexivity | exact IH]. Qed.

Lemma remove_nth_next (l r : list A) (x z : A) :
  Viewer.remove_nth (S (List.length l)) (l ++ x :: z :: r) = l ++ x :: r.
Proof.
  induction l as [|a l IH]; [reflexivity|].
  change (Viewer.remove_nth (S (List.length (a :: l))) ((a :: l) ++ x :: z :: r))
    with (a :: Viewer.remove_nth (S (List.length l)) (l ++ x :: z :: r)).
  rewrite IH. reflexivity.
Qed.

End InFlight.

Section ViewerFacts.

Import Viewer.

Variable getTime : string -> option Z.

Lemma searchLogs_issues (y : Sys) (g : string) :
  selectedLogGroup (state y) = Some g -> g <> "" ->
  searchLogs getTime y
  = mkSys (setError "" (setLoading true (state y)))
          (inflight y ++ [PostSearch (searchParams getTime g (state y))]).
Proof.
  intros Hg Hne. unfold searchLogs. rewrite Hg.
  apply truthy_string_true in Hne. rewrite Hne. reflexivity.
Qed.

Lemma searchLogs_refuses (y : Sys) :
  truthy_opt truthy_string (selectedLogGroup (state y)) = false ->
  searchLogs getTime y
  = mkSys (setError "Please select a log group" (state y)) (inflight y).
Proof.
  intros Hg. unfold searchLogs.
  destruct (selectedLogGroup (state y)) as [g|]; [|reflexivity].
  simpl in Hg. rewrite Hg. reflexivity.
Qed.

Lemma same_selection_false (a : option string) (g : string) :
  a <> Some g -> same_selection a (Some g) = false.
Proof.
  intros Hne. destruct a as [x|]; [|reflexivity]. simpl.
  destruct (String.eqb_spec x g); [subst; contradiction | reflexivity].
Qed.

Lemma selectGroup_fetches (y : Sys) (value : option string) :
  or_string value "" <> "" ->
  selectedLogGroup (state y) <> Some (or_string value "") ->
  selectGroup value y
  = mkSys (setError ""
             (setLoading true
                (setSelectedLogGroup (Some (or_string value "")) (state y))))
          (inflight y ++ [PutStreams (or_string value "")]).
Proof.
  intros Hne Hchg. unfold selectGroup, afterRender. simpl.
  apply truthy_string_true in Hne.
  rewrite (same_selection_false _ _ Hchg).
  unfold groupEffect, fetchLogStreams. simpl. rewrite Hne. reflexivity.
Qed.

Lemma selectGroup_empties (y : Sys) (value : option string) :
  or_string value "" = "" -> selectedLogGroup (state y) <> Some "" ->
  selectGroup value y
  = mkSys (setSelectedLogStream (Some "")
             (setLogStreams [] (setSelectedLogGroup (Some "") (state y))))
          (inflight y).
Proof.
  intros Hv Hchg. unfold selectGroup, afterRender. rewrite Hv. simpl.
  rewrite (same_selection_false _ _ Hchg). reflexivity.
Qed.

Lemma clearFilters_fields (s : State) :
  clearFilters s
  = mkState (logGroups s) (logStreams s) (Some "") (Some "") "" "" "" []
            (loading s) "" "" "".
Proof. destruct s. vm_compute. reflexivity. Qed.

Lemma clear_step (y : Sys) :
  step getTime Clear y
  = Some (mkSys
            (mkState
               (logGroups (state y))
               (if same_selection (selectedLogGroup (state y)) (Some "")
                then logStreams (state y) else [])
               (Some "") (Some "") "" "" "" []
               (loading (state y)) "" "" "")
            (inflight y)).
Proof.
  cbn [step]. rewrite clearFilters_fields.
  unfold afterRender. cbn [state selectedLogGroup].
  destruct (same_selection (selectedLogGroup (state y)) (Some ""));
    reflexivity.
Qed.

Lemma submit_step (y : Sys) (g : string) :
  loading (state y) = false ->
  selectedLogGroup (state y) = Some g -> g <> "" ->
  step getTime Submit y
  = Some (mkSys (setError "" (setLoading true (state y)))
                (inflight y ++ [PostSearch (searchParams getTime g (state y))])).
Proof.
  intros Hl Hg Hne. cbn [step]. unfold canSubmit. rewrite Hl, Hg.
  cbn [negb andb truthy_opt].
  rewrite (proj2 (truthy_string_true g) Hne).
  rewrite (searchLogs_issues y g Hg Hne). reflexivity.
Qed.

Lemma submit_disabled (y : Sys) :
  truthy_opt truthy_string (selectedLogGroup (state y)) = false ->
  step getTime Submit y = None.
Proof.
  intros Hg. cbn [step]. unfold canSubmit. rewrite Hg.
  rewrite andb_false_r. reflexivity.
Qed.

Lemma continuation_loading (q : Request) (r : Response) (s : State) :
  loading (continuation q r s) = false.
Proof. destruct q, r as [message | [|] data]; reflexivity. Qed.

Lemma continuation_group (q : Request) (r : Response) (s : State) :
  selectedLogGroup (continuation q r s) = selectedLogGroup s.
Proof. destruct q, r as [message | [|] data]; reflexivity. Qed.

Lemma searchLogs_group (y : Sys) :
  selectedLogGroup (state (searchLogs getTime y)) = selectedLogGroup (state y).
Proof.
  unfold searchLogs.
  destruct (selectedLogGroup (state y)) as [g|] eqn:Hg;
    [destruct (truthy_string g)|]; simpl; exact Hg.
Qed.

(** Only the group dropdown and Clear Filters write [selectedLogGroup]. *)
Lemma step_keeps_group (a : Action) (y y' : Sys) :
  step getTime a y = Some y' ->
  a <> Clear -> (forall value, a <> SelectGroup value) ->
  selectedLogGroup (state y') = selectedLogGroup (state y).
Proof.
  intros Hstep Hc Hs. destruct a; cbn [step] in Hstep.
  - exfalso. exact (Hs value eq_refl).
  - injection Hstep as <-. reflexivity.
  - injection Hstep as <-. reflexivity.
  - injection Hstep as <-. reflexivity.
  - injection Hstep as <-. reflexivity.
  - injection Hstep as <-. reflexivity.
  - injection Hstep as <-. reflexivity.
  - destruct (canSubmit (state y)); [|discriminate].
    injection Hstep as <-. apply searchLogs_group.
  - exfalso. exact (Hc eq_refl).
  - destruct (nth_error (inflight y) n) as [q|]; [|discriminate].
    injection Hstep as <-. apply continuation_group.
Qed.

Lemma run_app (a b : list Action) (y : Sys) :
  run getTime (a ++ b) y
  = match run getTime a y with
    | Some y' => run getTime b y'
    | None => None
    end.
Proof.
  revert y. induction a as [|x a IH]; intros y; cbn [app run];
    [reflexivity|].
  destruct (step getTime x y) as [y1|]; [apply IH | reflexivity].
Qed.

(** Two searches in flight, answered oldest first and newest first. *)
Lemma arrivals_in_order (s : State) (l : list Request)
    (a b : Route.SearchBody) (ra rb : Response) :
  run getTime [Arrive (List.length l) ra; Arrive (List.length l) rb]
      (mkSys s (l ++ [PostSearch a; PostSearch b]))
  = Some (mkSys (searchLogs_then rb (searchLogs_then ra s)) l).
Proof.
  cbn [run step inflight state].
  rewrite nth_error_here, remove_nth_here. cbn [inflight state continuation].
  rewrite nth_error_here, remove_nth_here, app_nil_r. reflexivity.
Qed.

Lemma arrivals_reversed (s : State) (l : list Request)
    (a b : Route.SearchBody) (ra rb : Response) :
  run getTime [Arrive (S (List.length l)) rb; Arrive (List.length l) ra]
      (mkSys s (l ++ [PostSearch a; PostSearch b]))
  = Some (mkSys (searchLogs_then ra (searchLogs_then rb s)) l).
Proof.
  cbn [run step inflight state].
  rewrite nth_error_next, remove_nth_next. cbn [inflight state continuation].
  rewrite nth_error_here, remove_nth_here, app_nil_r. reflexivity.
Qed.

(** A search is issued, the group changes, and the answer to the stream
    fetch turns [loading] off while the search is still awaited: the
    form can be submitted again, and two searches are in flight. *)
Lemma search_while_searching (y : Sys) (g g1 : string) (r : Response) :
  loading (state y) = false ->
  selectedLogGroup (state y) = Some g ->
  g <> "" -> g1 <> "" -> g1 <> g ->
  exists s a b,
    run getTime
      [ Submit; SelectGroup (Some g1);
        Arrive (S (List.length (inflight y))) r; Submit ] y
    = Some (mkSys s (inflight y ++ [PostSearch a; PostSearch b])) /\
    selectedLogGroup s = Some g1 /\
    Route.b_logGroupName a = Some g /\
    Route.b_logGroupName b = Some g1.
Proof.
  intros Hl Hg Hne H1 Hg1.
  assert (T1 : truthy_string g1 = true) by (apply truthy_string_true; exact H1).
  cbn [run]. rewrite (submit_step y g Hl Hg Hne). cbn [step].
  pose proof (selectGroup_fetches
                (mkSys (setError "" (setLoading true (state y)))
                       (inflight y
                        ++ [PostSearch (searchParams getTime g (state y))]))
                (Some g1)) as S1.
  simpl in S1. rewrite T1 in S1.
  rewrite S1 by (try rewrite Hg; congruence). clear S1.
  cbn [inflight state]. rewrite <- app_assoc. cbn [app].
  rewrite nth_error_next, remove_nth_next. cbn [continuation].
  match goal with
  | |- context [canSubmit (state ?z)] =>
      pose proof (submit_step z g1) as Hsub
  end.
  cbn [step] in Hsub. rewrite Hsub; clear Hsub.
  - cbn [inflight state]. rewrite <- app_assoc. cbn [app].
    eexists. eexists. eexists. split; [reflexivity|].
    split; [|split; reflexivity].
    cbn [selectedLogGroup setError setLoading].
    rewrite (continuation_group (PutStreams g1)). reflexivity.
  - apply (continuation_loading (PutStreams g1)).
  - cbn [state]. rewrite (continuation_group (PutStreams g1)). reflexivity.
  - exact H1.
Qed.

End ViewerFacts.

(** C9.  With no group selected ([selectedLogGroup] empty or null),
    [searchLogs] sets the validation message and returns: it adds no
    request to those in flight, and it leaves the event list and every
    other field of the state, but [error], as it was. *)
Theorem search_without_group (getTime : string -> option Z) (y : Viewer.Sys) :
  truthy_opt truthy_string (Viewer.selectedLogGroup (Viewer.state y)) = false ->
  let y' := Viewer.searchLogs getTime y in
  Viewer.inflight y' = Viewer.inflight y /\
  Viewer.error (Viewer.state y') = "Please select a log group" /\
  Viewer.logEvents (Viewer.state y') = Viewer.logEvents (Viewer.state y) /\
  Viewer.logGroups (Viewer.state y') = Viewer.logGroups (Viewer.state y) /\
  Viewer.logStreams (Viewer.state y') = Viewer.logStreams (Viewer.state y) /\
  Viewer.selectedLogGroup (Viewer.state y')
  = Viewer.selectedLogGroup (Viewer.state y) /\
  Viewer.selectedLogStream (Viewer.state y')
  = Viewer.selectedLogStream (Viewer.state y) /\
  Viewer.filterPattern (Viewer.state y') = Viewer.filterPattern (Viewer.state y) /\
  Viewer.startTime (Viewer.state y') = Viewer.startTime (Viewer.state y) /\
  Viewer.endTime (Viewer.state y') = Viewer.endTime (Viewer.state y) /\
  Viewer.loading (Viewer.state y') = Viewer.loading (Viewer.state y) /\
  Viewer.logGroupQuery (Viewer.state y') = Viewer.logGroupQuery (Viewer.state y) /\
  Viewer.logStreamQuery (Viewer.state y')
  = Viewer.logStreamQuery (Viewer.state y).
Proof.
  intros Hg y'. subst y'. rewrite (searchLogs_refuses getTime y Hg).
  simpl. repeat split.
Qed.

Lemma search_without_group_witness :
  Viewer.searchLogs Examples.noDates Examples.nothingSelected
  = Viewer.mkSys
      (Viewer.setError "Please select a log group"
                       (Viewer.state Examples.nothingSelected))
      [Viewer.GetGroups] /\
  Viewer.inflight (Viewer.searchLogs Examples.noDates Examples.nothingSelected)
  = [Viewer.GetGroups] /\
  Viewer.logEvents
    (Viewer.state (Viewer.searchLogs Examples.noDates Examples.nothingSelected))
  = [Examples.eventOld].
Proof.
  split; [reflexivity|].
  destruct (search_without_group Examples.noDates Examples.nothingSelected
              eq_refl) as (Hin & _ & Hev & _).
  split; [exact Hin | exact Hev].
Defined.

Lemma reselect_same_group_eq (y : Viewer.Sys) (value : option string) :
  Viewer.selectedLogGroup (Viewer.state y) = Some (or_string value "") ->
  Viewer.selectGroup value y = y.
Proof.
  intros Hsame. unfold Viewer.selectGroup, Viewer.afterRender.
  destruct y as [s inflight]. destruct s. simpl in *.
  rewrite Hsame. simpl. rewrite String.eqb_refl. reflexivity.
Qed.

Lemma selectGroup_change (y : Viewer.Sys) (value : option string) :
  Viewer.selectedLogGroup (Viewer.state y) <> Some (or_string value "") ->
  let g := or_string value "" in
  let y' := Viewer.selectGroup value y in
  Viewer.selectedLogGroup (Viewer.state y') = Some g /\
  Viewer.logEvents (Viewer.state y') = Viewer.logEvents (Viewer.state y) /\
  (g <> "" ->
   Viewer.inflight y' = Viewer.inflight y ++ [Viewer.PutStreams g] /\
   Viewer.selectedLogStream (Viewer.state y')
   = Viewer.selectedLogStream (Viewer.state y)) /\
  (g = "" ->
   Viewer.inflight y' = Viewer.inflight y /\
   Viewer.logStreams (Viewer.state y') = [] /\
   Viewer.selectedLogStream (Viewer.state y') = Some "").
Proof.
  intros Hchg g y'. subst g y'.
  destruct (String.eqb_spec (or_string value "") "") as [He | Hne].
  - rewrite (selectGroup_empties y value He) by (rewrite <- He; exact Hchg).
    rewrite He. simpl.
    split; [reflexivity|]. split; [reflexivity|]. split.
    + intros Hne. contradiction.
    + intros _. repeat split.
  - rewrite (selectGroup_fetches y value Hne Hchg). simpl.
    split; [reflexivity|]. split; [reflexivity|]. split.
    + intros _. split; reflexivity.
    + intros He. contradiction.
Qed.

(** C2 (as amended).  The selected group changes through the group
    dropdown or through Clear Filters, and through nothing else.  When
    it changes, to [g], the component stores [g] as the current group.
    A change through the dropdown ([g] is the chosen value, or the empty
    string for a null one) leaves the stored event list as it was; a
    change through Clear Filters is a change to the empty string and
    empties the event list.  If [g] is not empty exactly one stream fetch
    is started, for [g], and the current stream is left as it was; if
    [g] is empty no fetch is started, the stream collection becomes
    empty and the current stream is reset. *)
Theorem group_change (getTime : string -> option Z) (a : Viewer.Action)
    (y y' : Viewer.Sys) :
  Viewer.step getTime a y = Some y' ->
  Viewer.selectedLogGroup (Viewer.state y')
  <> Viewer.selectedLogGroup (Viewer.state y) ->
  exists g,
    Viewer.selectedLogGroup (Viewer.state y') = Some g /\
    ((exists value,
         a = Viewer.SelectGroup value /\ g = or_string value "" /\
         Viewer.logEvents (Viewer.state y') = Viewer.logEvents (Viewer.state y))
     \/
     (a = Viewer.Clear /\ g = "" /\ Viewer.logEvents (Viewer.state y') = [])) /\
    (g <> "" ->
     Viewer.inflight y' = Viewer.inflight y ++ [Viewer.PutStreams g] /\
     Viewer.selectedLogStream (Viewer.state y')
     = Viewer.selectedLogStream (Viewer.state y)) /\
    (g = "" ->
     Viewer.inflight y' = Viewer.inflight y /\
     Viewer.logStreams (Viewer.state y') = [] /\
     Viewer.selectedLogStream (Viewer.state y') = Some "").
Proof.
  intros Hstep Hchg.
  destruct a;
    try (exfalso; apply Hchg;
         apply (step_keeps_group getTime _ y y' Hstep);
         [discriminate | intros ?; discriminate]).
  - cbn [Viewer.step] in Hstep. injection Hstep as <-.
    assert (Hne : Viewer.selectedLogGroup (Viewer.state y)
                  <> Some (or_string value "")).
    { intros Heq. apply Hchg.
      rewrite (reselect_same_group_eq y value Heq). reflexivity. }
    destruct (selectGroup_change y value Hne) as (Hg & Hev & Hfetch & Hnone).
    exists (or_string value ""). split; [exact Hg|]. split.
    + left. exists value. split; [reflexivity|]. split; [reflexivity|exact Hev].
    + split; [exact Hfetch | exact Hnone].
  - rewrite clear_step in Hstep. injection Hstep as <-.
    cbn [Viewer.state Viewer.selectedLogGroup] in Hchg.
    exists "". split; [reflexivity|]. split.
    + right. split; [reflexivity|]. split; reflexivity.
    + split; [intros Hne; contradiction|]. intros _.
      cbn [Viewer.state Viewer.inflight Viewer.logStreams
           Viewer.selectedLogStream].
      rewrite same_selection_false by (intros Heq; apply Hchg; congruence).
      repeat split.
Qed.

Lemma group_change_witness :
  exists g,
    Viewer.selectedLogGroup
      (Viewer.state (Viewer.selectGroup (Some "/svc/b") Examples.browsing))
    = Some g /\
    g = "/svc/b" /\
    Viewer.inflight (Viewer.selectGroup (Some "/svc/b") Examples.browsing)
    = [Viewer.PutStreams "/svc/b"].
Proof.
  destruct (group_change Examples.noDates (Viewer.SelectGroup (Some "/svc/b"))
              Examples.browsing
              (Viewer.selectGroup (Some "/svc/b") Examples.browsing))
    as (g & Hg & _ & Hfetch & _).
  - reflexivity.
  - discriminate.
  - exists g. split; [exact Hg|].
    assert (Hb : g = "/svc/b") by (injection Hg as <-; reflexivity).
    split; [exact Hb|].
    subst g. apply Hfetch. discriminate.
Defined.

(** C2 as stated fails when the group changes from ["/svc/a"] to
    ["/svc/b"] with a stream selected and a result on display: the
    events are still stored afterwards, and so is the stream of the old
    group. *)
Lemma events_survive_group_change :
  Viewer.selectedLogGroup (Viewer.state Examples.browsing) = Some "/svc/a" /\
  Viewer.selectedLogGroup
    (Viewer.state (Viewer.selectGroup (Some "/svc/b") Examples.browsing))
  = Some "/svc/b" /\
  Viewer.logEvents
    (Viewer.state (Viewer.selectGroup (Some "/svc/b") Examples.browsing))
  = [Examples.eventOld] /\
  Viewer.selectedLogStream
    (Viewer.state (Viewer.selectGroup (Some "/svc/b") Examples.browsing))
  = Some "2024/01/01/x".
Proof. repeat split. Qed.

(** C1 (as amended).  A response is applied when it arrives, whatever was
    issued since: there is no generation check.  The form cannot be
    submitted while [loading] is set, but any response turns [loading]
    off: after search A is issued, the group changes to [g1], the answer
    to the stream fetch arrives and search B is issued, both searches
    are awaited, and the stored event list is B's result when A's
    response arrives first and A's result when A's response arrives
    last.  After two group changes, to [g1] and then to [g2], the stored
    stream list is the one of the response that arrives last; when that
    is the response for [g1], the streams of [g1] are stored while [g2]
    is the selected group. *)
Theorem results_follow_arrival_order (getTime : string -> option Z)
    (y : Viewer.Sys) (g g1 g2 : string) (r : Viewer.Response)
    (dA dB : Viewer.Data) :
  Viewer.selectedLogGroup (Viewer.state y) = Some g ->
  g <> "" -> g1 <> "" -> g2 <> "" -> g1 <> g -> g2 <> g1 ->
  let k := List.length (Viewer.inflight y) in
  let okA := Viewer.Answered true dA in
  let okB := Viewer.Answered true dB in
  (Viewer.loading (Viewer.state y) = false ->
   exists y',
      Viewer.run getTime
        [ Viewer.Submit; Viewer.SelectGroup (Some g1);
          Viewer.Arrive (S k) r; Viewer.Submit;
          Viewer.Arrive k okA; Viewer.Arrive k okB ] y = Some y' /\
      Viewer.logEvents (Viewer.state y') = Viewer.d_events dB /\
      Viewer.selectedLogGroup (Viewer.state y') = Some g1 /\
      Viewer.inflight y' = Viewer.inflight y) /\
  (Viewer.loading (Viewer.state y) = false ->
   exists y',
      Viewer.run getTime
        [ Viewer.Submit; Viewer.SelectGroup (Some g1);
          Viewer.Arrive (S k) r; Viewer.Submit;
          Viewer.Arrive (S k) okB; Viewer.Arrive k okA ] y = Some y' /\
      Viewer.logEvents (Viewer.state y') = Viewer.d_events dA /\
      Viewer.selectedLogGroup (Viewer.state y') = Some g1 /\
      Viewer.inflight y' = Viewer.inflight y) /\
  (exists y',
      Viewer.run getTime
        [ Viewer.SelectGroup (Some g1); Viewer.SelectGroup (Some g2);
          Viewer.Arrive k okA; Viewer.Arrive k okB ] y = Some y' /\
      Viewer.logStreams (Viewer.state y') = Viewer.d_logStreams dB /\
      Viewer.selectedLogGroup (Viewer.state y') = Some g2 /\
      Viewer.inflight y' = Viewer.inflight y) /\
  (exists y',
      Viewer.run getTime
        [ Viewer.SelectGroup (Some g1); Viewer.SelectGroup (Some g2);
          Viewer.Arrive (S k) okB; Viewer.Arrive k okA ] y = Some y' /\
      Viewer.logStreams (Viewer.state y') = Viewer.d_logStreams dA /\
      Viewer.selectedLogGroup (Viewer.state y') = Some g2 /\
      Viewer.inflight y' = Viewer.inflight y).
Proof.
  intros Hg Hne H1 H2 Hg1 Hg2 k okA okB. subst k okA okB.
  assert (T1 : truthy_string g1 = true) by (apply truthy_string_true; exact H1).
  assert (T2 : truthy_string g2 = true) by (apply truthy_string_true; exact H2).
  assert (S1 : Viewer.selectGroup (Some g1) y
               = Viewer.mkSys
                   (Viewer.setError ""
                      (Viewer.setLoading true
                         (Viewer.setSelectedLogGroup (Some g1) (Viewer.state y))))
                   (Viewer.inflight y ++ [Viewer.PutStreams g1])).
  { pose proof (selectGroup_fetches y (Some g1)) as Hsel. simpl in Hsel.
    rewrite T1 in Hsel. apply Hsel; congruence. }
  split; [|split; [|split]].
  - intros Hl.
    destruct (search_while_searching getTime y g g1 r Hl Hg Hne H1 Hg1)
      as (s & a & b & Hrun & Hs & _).
    change [ Viewer.Submit; Viewer.SelectGroup (Some g1);
             Viewer.Arrive (S (List.length (Viewer.inflight y))) r;
             Viewer.Submit;
             Viewer.Arrive (List.length (Viewer.inflight y))
                           (Viewer.Answered true dA);
             Viewer.Arrive (List.length (Viewer.inflight y))
                           (Viewer.Answered true dB) ]
      with ([ Viewer.Submit; Viewer.SelectGroup (Some g1);
              Viewer.Arrive (S (List.length (Viewer.inflight y))) r;
              Viewer.Submit ]
            ++ [ Viewer.Arrive (List.length (Viewer.inflight y))
                               (Viewer.Answered true dA);
                 Viewer.Arrive (List.length (Viewer.inflight y))
                               (Viewer.Answered true dB) ]).
    rewrite run_app, Hrun, arrivals_in_order.
    eexists. split; [reflexivity|].
    split; [reflexivity|]. split; [exact Hs | reflexivity].
  - intros Hl.
    destruct (search_while_searching getTime y g g1 r Hl Hg Hne H1 Hg1)
      as (s & a & b & Hrun & Hs & _).
    change [ Viewer.Submit; Viewer.SelectGroup (Some g1);
             Viewer.Arrive (S (List.length (Viewer.inflight y))) r;
             Viewer.Submit;
             Viewer.Arrive (S (List.length (Viewer.inflight y)))
                           (Viewer.Answered true dB);
             Viewer.Arrive (List.length (Viewer.inflight y))
                           (Viewer.Answered true dA) ]
      with ([ Viewer.Submit; Viewer.SelectGroup (Some g1);
              Viewer.Arrive (S (List.length (Viewer.inflight y))) r;
              Viewer.Submit ]
            ++ [ Viewer.Arrive (S (List.length (Viewer.inflight y)))
                               (Viewer.Answered true dB);
                 Viewer.Arrive (List.length (Viewer.inflight y))
                               (Viewer.Answered true dA) ]).
    rewrite run_app, Hrun, arrivals_reversed.
    eexists. split; [reflexivity|].
    split; [reflexivity|]. split; [exact Hs | reflexivity].
  - cbn [Viewer.run Viewer.step]. rewrite S1.
    pose proof (selectGroup_fetches
                  (Viewer.mkSys
                     (Viewer.setError ""
                        (Viewer.setLoading true
                           (Viewer.setSelectedLogGroup (Some g1) (Viewer.state y))))
                     (Viewer.inflight y ++ [Viewer.PutStreams g1]))
                  (Some g2)) as S2.
    simpl in S2. rewrite T2 in S2. rewrite S2 by congruence.
    cbn [Viewer.inflight]. rewrite <- app_assoc. cbn [app].
    rewrite nth_error_here, remove_nth_here.
    cbn [Viewer.inflight Viewer.state].
    rewrite nth_error_here, remove_nth_here, app_nil_r.
    eexists. split; [reflexivity|]. repeat split.
  - cbn [Viewer.run Viewer.step]. rewrite S1.
    pose proof (selectGroup_fetches
                  (Viewer.mkSys
                     (Viewer.setError ""
                        (Viewer.setLoading true
                           (Viewer.setSelectedLogGroup (Some g1) (Viewer.state y))))
                     (Viewer.inflight y ++ [Viewer.PutStreams g1]))
                  (Some g2)) as S2.
    simpl in S2. rewrite T2 in S2. rewrite S2 by congruence.
    cbn [Viewer.inflight]. rewrite <- app_assoc. cbn [app].
    rewrite nth_error_next, remove_nth_next.
    cbn [Viewer.inflight Viewer.state].
    rewrite nth_error_here, remove_nth_here, app_nil_r.
    eexists. split; [reflexivity|]. repeat split.
Qed.

Lemma results_follow_arrival_order_witness :
  exists y',
    Viewer.run Examples.noDates
      [ Viewer.Submit; Viewer.SelectGroup (Some "/svc/b");
        Viewer.Arrive 1 (Viewer.Answered true
                           (Viewer.mkData None [] [Examples.stream2] []));
        Viewer.Submit;
        Viewer.Arrive 0 (Examples.answer [Examples.eventA]);
        Viewer.Arrive 0 (Examples.answer [Examples.eventB]) ]
      Examples.browsing = Some y' /\
    Viewer.logEvents (Viewer.state y') = [Examples.eventB] /\
    Viewer.selectedLogGroup (Viewer.state y') = Some "/svc/b" /\
    Viewer.inflight y' = [].
Proof.
  destruct (results_follow_arrival_order Examples.noDates Examples.browsing
              "/svc/a" "/svc/b" "/svc/c"
              (Viewer.Answered true
                 (Viewer.mkData None [] [Examples.stream2] []))
              (Viewer.mkData None [] [] [Examples.eventA])
              (Viewer.mkData None [] [] [Examples.eventB]))
    as (Hab & _); try discriminate; [reflexivity|].
  exact (Hab eq_refl).
Defined.

(** C1 as stated fails when the responses arrive in the opposite order.
    Search A is issued for ["/svc/a"], the group changes to ["/svc/b"],
    the answer to the stream fetch arrives and search B is issued; B's
    response arrives and then A's.  Both are applied, and the event list
    that stays is A's. *)
Lemma stale_search_overwrites :
  Viewer.run Examples.noDates
    [ Viewer.Submit; Viewer.SelectGroup (Some "/svc/b");
      Viewer.Arrive 1 (Viewer.Answered true
                         (Viewer.mkData None [] [Examples.stream2] []));
      Viewer.Submit ]
    Examples.browsing
  = Some (Viewer.mkSys
            (Viewer.mkState [Examples.groupA; Examples.groupB]
               [Examples.stream2] (Some "/svc/b") (Some "2024/01/01/x")
               "" "" "" [Examples.eventOld] true "" "" "")
            [ Viewer.PostSearch
                (Route.mkSearchBody (Some "/svc/a") (Some "2024/01/01/x")
                                    None None None (Some 100));
              Viewer.PostSearch
                (Route.mkSearchBody (Some "/svc/b") (Some "2024/01/01/x")
                                    None None None (Some 100)) ]) /\
  Viewer.run Examples.noDates
    [ Viewer.Submit; Viewer.SelectGroup (Some "/svc/b");
      Viewer.Arrive 1 (Viewer.Answered true
                         (Viewer.mkData None [] [Examples.stream2] []));
      Viewer.Submit;
      Viewer.Arrive 1 (Examples.answer [Examples.eventB]);
      Viewer.Arrive 0 (Examples.answer [Examples.eventA]) ]
    Examples.browsing
  = Some (Viewer.mkSys
            (Viewer.mkState [Examples.groupA; Examples.groupB]
               [Examples.stream2] (Some "/svc/b") (Some "2024/01/01/x")
               "" "" "" [Examples.eventA] false "" "" "")
            []) /\
  [Examples.eventA] <> [Examples.eventB].
Proof.
  split; [vm_compute; reflexivity|].
  split; [vm_compute; reflexivity | discriminate].
Qed.

(** * Further properties of the code *)

(** ** route.ts: errors *)

Lemma is_name_true (o : option string) (s : string) :
  Route.is_name o s = true <-> o = Some s.
Proof.
  destruct o as [n|]; simpl.
  - destruct (String.eqb_spec n s); split; congruence.
  - split; discriminate.
Qed.

Lemma credentials_rejected_test (e : Route.Thrown) :
  Route.is_name (Route.err_name e) "UnrecognizedClientException"
  || Route.is_name (Route.err_type e) "UnrecognizedClientException"
  || Route.is_name (Route.err_name e) "InvalidSignatureException"
  || Route.is_name (Route.err_type e) "InvalidSignatureException" = true
  <-> Paging.credentials_rejected e.
Proof.
  unfold Paging.credentials_rejected.
  rewrite !orb_true_iff, !is_name_true. tauto.
Qed.

Lemma access_denied_test (e : Route.Thrown) :
  Route.is_name (Route.err_name e) "AccessDeniedException"
  || Route.is_name (Route.err_type e) "AccessDeniedException" = true
  <-> Paging.access_denied e.
Proof.
  unfold Paging.access_denied. rewrite !orb_true_iff, !is_name_true. tauto.
Qed.

Lemma getFriendlyAWSError_unfold (e : Route.Thrown) :
  Route.getFriendlyAWSError e
  = if Route.is_name (Route.err_name e) "UnrecognizedClientException"
       || Route.is_name (Route.err_type e) "UnrecognizedClientException"
       || Route.is_name (Route.err_name e) "InvalidSignatureException"
       || Route.is_name (Route.err_type e) "InvalidSignatureException"
    then Some "AWS credentials are invalid. Please check your configuration."
    else if Route.is_name (Route.err_name e) "AccessDeniedException"
            || Route.is_name (Route.err_type e) "AccessDeniedException"
    then Some "Access denied. Please check your AWS permissions."
    else None.
Proof.
  unfold Route.getFriendlyAWSError.
  destruct (Route.err_name e), (Route.err_type e); reflexivity.
Qed.

(** X1.  The catch block of the handlers answers 401 with the
    credentials message when the name or the [__type] of the thrown value
    is UnrecognizedClientException or InvalidSignatureException; otherwise
    401 with the permissions message when one of them is
    AccessDeniedException; otherwise 500 with the handler's own message.
    The credentials message wins when both kinds are present. *)
Theorem catch_status (fallback : string) (e : Route.Thrown) :
  (Paging.credentials_rejected e ->
   Route.on_error fallback e
   = Route.mkNextResponse
       (Route.JsonError
          "AWS credentials are invalid. Please check your configuration.")
       401) /\
  (~ Paging.credentials_rejected e -> Paging.access_denied e ->
   Route.on_error fallback e
   = Route.mkNextResponse
       (Route.JsonError "Access denied. Please check your AWS permissions.")
       401) /\
  (~ Paging.credentials_rejected e -> ~ Paging.access_denied e ->
   Route.on_error fallback e
   = Route.mkNextResponse (Route.JsonError fallback) 500).
Proof.
  unfold Route.on_error. rewrite getFriendlyAWSError_unfold.
  pose proof (credentials_rejected_test e) as Hc.
  pose proof (access_denied_test e) as Ha.
  destruct (Route.is_name (Route.err_name e) "UnrecognizedClientException"
            || Route.is_name (Route.err_type e) "UnrecognizedClientException"
            || Route.is_name (Route.err_name e) "InvalidSignatureException"
            || Route.is_name (Route.err_type e) "InvalidSignatureException").
  - repeat split; try reflexivity; intros Hn; exfalso; apply Hn, Hc; reflexivity.
  - destruct (Route.is_name (Route.err_name e) "AccessDeniedException"
              || Route.is_name (Route.err_type e) "AccessDeniedException").
    + split; [|split].
      * intros H. apply Hc in H. discriminate.
      * reflexivity.
      * intros _ Hn. exfalso. apply Hn, Ha. reflexivity.
    + split; [|split].
      * intros H. apply Hc in H. discriminate.
      * intros _ H. apply Ha in H. discriminate.
      * reflexivity.
Qed.

Lemma catch_status_witness :
  Route.on_error "Failed to search logs" MoreExamples.denied
  = Route.mkNextResponse
      (Route.JsonError
         "AWS credentials are invalid. Please check your configuration.")
      401 /\
  Route.on_error "Failed to search logs" MoreExamples.throttled
  = Route.mkNextResponse (Route.JsonError "Failed to search logs") 500.
Proof.
  split.
  - apply (catch_status "Failed to search logs" MoreExamples.denied).
    right. left. reflexivity.
  - apply (catch_status "Failed to search logs" MoreExamples.throttled).
    + intros [H | [H | [H | H]]]; discriminate.
    + intros [H | H]; discriminate.
Defined.

Lemma on_error_is_error (fallback : string) (e : Route.Thrown) :
  exists message code,
    Route.on_error fallback e
    = Route.mkNextResponse (Route.JsonError message) code.
Proof.
  unfold Route.on_error. destruct (Route.getFriendlyAWSError e); eauto.
Qed.

Lemma getClient_unconfigured env aws :
  ~ Route.configured env ->
  Route.getClient env aws = inl Route.credentialsError.
Proof.
  unfold Route.configured, Route.getClient. intros Hn.
  destruct (truthy_opt truthy_string (Route.region env)),
    (truthy_opt truthy_string (Route.accessKeyId env)),
    (truthy_opt truthy_string (Route.secretAccessKey env));
    try reflexivity.
  exfalso. apply Hn. auto.
Qed.

(** X2.  When the region, the access key id or the secret access key is
    missing from the environment (unset or empty), each of the three
    handlers answers 500 with its own message and sends nothing to the
    store; GET does so before its first iteration, whatever the fuel. *)
Theorem unconfigured_handlers (env : Route.Env) (aws : Route.Client)
    (fuel : nat) (b : Route.SearchBody) (g : option string) :
  ~ Route.configured env ->
  Route.GET fuel env aws
  = (Some (Route.mkNextResponse (Route.JsonError "Failed to fetch log groups")
                                500), []) /\
  Route.POST env aws b
  = (Route.mkNextResponse (Route.JsonError "Failed to search logs") 500, []) /\
  Route.PUT env aws g
  = (Route.mkNextResponse (Route.JsonError "Failed to fetch log streams") 500,
     []).
Proof.
  intros Hn. unfold Route.GET, Route.POST, Route.PUT.
  rewrite (getClient_unconfigured env aws Hn). repeat split.
Qed.

Lemma unconfigured_handlers_witness :
  Route.GET 0 MoreExamples.noRegion Examples.threePages
  = (Some (Route.mkNextResponse (Route.JsonError "Failed to fetch log groups")
                                500), []).
Proof.
  apply (unconfigured_handlers MoreExamples.noRegion Examples.threePages 0
           (Route.mkSearchBody None None None None None None) None).
  intros (Hr & _). discriminate.
Defined.

(** ** route.ts: listings that fail or never end *)

Lemma token_after_cons token out rest :
  Paging.token_after token (out :: rest)
  = Paging.token_after (Route.dlg_outToken out) rest.
Proof. unfold Paging.token_after. simpl map. apply last_cons. Qed.

Lemma GET_loop_fails (client : Route.Client) (e : Route.Thrown) outs :
  forall token acc sent fuel,
    Paging.fails_after client token outs e ->
    (List.length outs < fuel)%nat ->
    Route.GET_loop fuel client acc token sent
    = (Route.Threw e,
       sent ++ Route.requests_for token outs
            ++ [Route.mkDescribeLogGroupsInput
                  50 (Paging.token_after token outs)]).
Proof.
  induction outs as [|out rest IH]; intros token acc sent fuel Hf Hfuel;
    (destruct fuel as [|fuel]; [simpl in Hfuel; lia|]);
    inversion Hf as [tk e' Hsend | tk o next r e' Hsend Htok Hne Hrest]; subst.
  - simpl. rewrite Hsend. reflexivity.
  - simpl in Hfuel. rewrite token_after_cons. simpl. rewrite Hsend, Htok. simpl.
    apply truthy_string_true in Hne. rewrite Hne.
    rewrite (IH (Some next)); [|exact Hrest|lia].
    rewrite <- !app_assoc. reflexivity.
Qed.

(** X3.  When the store serves some pages of groups and then throws on
    the next request, GET (with fuel for one request more than the pages
    served) answers with the error response for what was thrown and with
    nothing else: the groups of the pages already fetched are not in the
    response.  It has sent one request per page served and the failing
    one. *)
Theorem GET_fails_whole (env : Route.Env) (aws : Route.Client)
    (outs : list Route.DescribeLogGroupsOutput) (e : Route.Thrown)
    (fuel : nat) :
  Route.configured env ->
  Paging.fails_after aws None outs e ->
  (List.length outs < fuel)%nat ->
  Route.GET fuel env aws
  = (Some (Route.on_error "Failed to fetch log groups" e),
     Route.requests_for None outs
       ++ [Route.mkDescribeLogGroupsInput 50 (Paging.token_after None outs)]) /\
  exists message code,
    fst (Route.GET fuel env aws)
    = Some (Route.mkNextResponse (Route.JsonError message) code).
Proof.
  intros Henv Hf Hfuel.
  assert (HG : Route.GET fuel env aws
               = (Some (Route.on_error "Failed to fetch log groups" e),
                  Route.requests_for None outs
                    ++ [Route.mkDescribeLogGroupsInput
                          50 (Paging.token_after None outs)])).
  { unfold Route.GET. rewrite (getClient_configured env aws Henv).
    rewrite (GET_loop_fails aws e outs None [] [] fuel Hf Hfuel). reflexivity. }
  split; [exact HG|]. rewrite HG. simpl.
  destruct (on_error_is_error "Failed to fetch log groups" e)
    as (message & code & ->).
  eauto.
Qed.

Lemma GET_fails_whole_witness :
  Route.GET 2 Examples.env MoreExamples.secondPageFails
  = (Some (Route.mkNextResponse (Route.JsonError "Failed to fetch log groups")
                                500),
     [ Route.mkDescribeLogGroupsInput 50 None;
       Route.mkDescribeLogGroupsInput 50 (Some "t1") ]).
Proof.
  destruct (GET_fails_whole Examples.env MoreExamples.secondPageFails
              [Route.mkDescribeLogGroupsOutput (Some [Examples.groupA])
                                               (Some "t1")]
              MoreExamples.throttled 2) as (HG & _).
  - repeat split.
  - eapply Paging.fails_later; [reflexivity | reflexivity | discriminate |].
    apply Paging.fails_now. reflexivity.
  - simpl. lia.
  - exact HG.
Defined.

Lemma GET_loop_endless (client : Route.Client) :
  Paging.always_more client ->
  forall fuel acc token sent,
    fst (Route.GET_loop fuel client acc token sent) = Route.OutOfFuel /\
    List.length (snd (Route.GET_loop fuel client acc token sent))
    = (List.length sent + fuel)%nat.
Proof.
  intros Hmore. induction fuel as [|fuel IH]; intros acc token sent.
  - simpl. split; [reflexivity | lia].
  - simpl. destruct (Hmore (Route.mkDescribeLogGroupsInput 50 token))
      as (out & Hsend & Htok).
    rewrite Hsend, Htok.
    destruct (IH (acc ++ or_nil (Route.dlg_logGroups out))
                 (Route.dlg_outToken out)
                 (sent ++ [Route.mkDescribeLogGroupsInput 50 token]))
      as (Hout & Hlen).
    split; [exact Hout|]. rewrite Hlen, length_app. simpl. lia.
Qed.

(** X4.  The loop of GET has no bound of its own: against a store that
    answers every request with a page and a non-empty continuation token,
    GET never answers.  Whatever the fuel, the loop is still running when
    the fuel is spent, having sent one request per unit. *)
Theorem GET_never_answers (env : Route.Env) (aws : Route.Client)
    (fuel : nat) :
  Route.configured env ->
  Paging.always_more aws ->
  fst (Route.GET fuel env aws) = None /\
  List.length (snd (Route.GET fuel env aws)) = fuel.
Proof.
  intros Henv Hmore. unfold Route.GET.
  rewrite (getClient_configured env aws Henv).
  destruct (GET_loop_endless aws Hmore fuel [] None []) as (Hout & Hlen).
  destruct (Route.GET_loop fuel aws [] None []) as [outcome sent].
  simpl in Hout, Hlen. subst outcome. simpl. split; [reflexivity | exact Hlen].
Qed.

Lemma GET_never_answers_witness :
  fst (Route.GET 40 Examples.env MoreExamples.endless) = None /\
  List.length (snd (Route.GET 40 Examples.env MoreExamples.endless)) = 40%nat.
Proof.
  apply (GET_never_answers Examples.env MoreExamples.endless 40).
  - repeat split.
  - intros request. eexists. split; reflexivity.
Defined.

(** ** route.ts and the viewer: the limit of a search *)

(** X5.  Whatever the payload, the limit POST forwards to the store is
    never 0 and never above 10000. *)
Theorem forwarded_limit_bounds (b : Route.SearchBody) :
  Route.fle_limit (Route.POST_params b) <> 0 /\
  Route.fle_limit (Route.POST_params b) <= 10000.
Proof.
  simpl. rewrite effective_limit_cases.
  destruct (Route.b_limit b) as [l|]; [|lia].
  destruct (Z.eqb_spec l 0); simpl; [lia|].
  destruct (Z.ltb_spec 10000 l); lia.
Qed.

(** X6.  A search issued by the viewer reaches the store, through POST,
    for the selected group and with the limit 100: neither the fallback
    nor the cap of POST applies to it.  The stream and the pattern are
    sent exactly when they are not empty, and a start time is sent exactly
    when the field is filled, parses to a number and is not 0. *)
Theorem viewer_search_request (getTime : string -> option Z)
    (y : Viewer.Sys) (g : string) :
  Viewer.selectedLogGroup (Viewer.state y) = Some g -> g <> "" ->
  let body := Viewer.searchParams getTime g (Viewer.state y) in
  let params := Route.POST_params body in
  Viewer.inflight (Viewer.searchLogs getTime y)
  = Viewer.inflight y ++ [Viewer.PostSearch body] /\
  Route.fle_logGroupName params = Some g /\
  Route.fle_limit params = 100 /\
  (forall n, Route.fle_logStreamNames params = Some [n] <->
             Viewer.selectedLogStream (Viewer.state y) = Some n /\ n <> "") /\
  (forall p, Route.fle_filterPattern params = Some p <->
             Viewer.filterPattern (Viewer.state y) = p /\ p <> "") /\
  (forall t, Route.fle_startTime params = Some t <->
             Viewer.startTime (Viewer.state y) <> "" /\
             getTime (Viewer.startTime (Viewer.state y)) = Some t /\ t <> 0).
Proof.
  intros Hg Hne body params. subst body params.
  rewrite (searchLogs_issues getTime y g Hg Hne). simpl.
  split; [reflexivity|]. split; [reflexivity|]. split; [reflexivity|].
  split; [|split].
  - intros n. destruct (Viewer.selectedLogStream (Viewer.state y)) as [m|]; simpl.
    + destruct (truthy_string m) eqn:Hm; simpl; [rewrite Hm|].
      * apply truthy_string_true in Hm. split.
        -- intros H. injection H as <-. auto.
        -- intros (H & _). injection H as <-. reflexivity.
      * apply truthy_string_false in Hm. subst m. split; [discriminate|].
        intros (H & Hn). injection H as <-. contradiction.
    + split; [discriminate | intros (H & _); discriminate].
  - intros p. destruct (truthy_string (Viewer.filterPattern (Viewer.state y))) eqn:Hp;
      simpl; [rewrite Hp|].
    + apply truthy_string_true in Hp. split.
      * intros H. injection H as <-. auto.
      * intros (<- & _). reflexivity.
    + apply truthy_string_false in Hp. split; [discriminate|].
      intros (<- & Hn). contradiction.
  - intros t. destruct (truthy_string (Viewer.startTime (Viewer.state y))) eqn:Hs.
    + apply truthy_string_true in Hs.
      destruct (getTime (Viewer.startTime (Viewer.state y))) as [u|]; simpl.
      * destruct (truthy_number u) eqn:Hu.
        -- apply truthy_number_true in Hu. split.
           ++ intros H. injection H as <-. auto.
           ++ intros (_ & H & _). exact H.
        -- apply truthy_number_false in Hu. subst u. split; [discriminate|].
           intros (_ & H & Hn). injection H as <-. contradiction.
      * split; [discriminate | intros (_ & H & _); discriminate].
    + apply truthy_string_false in Hs. simpl. split; [discriminate|].
      intros (Hn & _). contradiction.
Qed.

Lemma viewer_search_request_witness :
  Route.fle_limit
    (Route.POST_params
       (Viewer.searchParams Examples.noDates "/svc/a"
                            (Viewer.state Examples.browsing))) = 100.
Proof.
  destruct (viewer_search_request Examples.noDates Examples.browsing "/svc/a")
    as (_ & _ & Hlimit & _).
  - reflexivity.
  - discriminate.
  - exact Hlimit.
Defined.

(** ** The viewer: responses that fail, and loading *)

Lemma length_remove_nth {A : Type} (l : list A) :
  forall n x, nth_error l n = Some x ->
              List.length l = S (List.length (Viewer.remove_nth n l)).
Proof.
  induction l as [|a l IH]; intros [|n] x H; simpl in *; try discriminate.
  - reflexivity.
  - f_equal. exact (IH n x H).
Qed.



(** X8.  Every arriving response, good or bad, turns the loading flag
    off, also when other requests are still awaited: the flag does not
    count the requests in flight. *)
Theorem arrival_clears_loading (getTime : string -> option Z)
    (y : Viewer.Sys) (n : nat) (q : Viewer.Request) (r : Viewer.Response) :
  nth_error (Viewer.inflight y) n = Some q ->
  exists y',
    Viewer.step getTime (Viewer.Arrive n r) y = Some y' /\
    Viewer.loading (Viewer.state y') = false /\
    Viewer.inflight y' = Viewer.remove_nth n (Viewer.inflight y) /\
    List.length (Viewer.inflight y) = S (List.length (Viewer.inflight y')).
Proof.
  intros Hq. simpl. rewrite Hq. eexists. split; [reflexivity|]. simpl.
  split; [|split; [reflexivity | exact (length_remove_nth _ n q Hq)]].
  destruct q, r as [message | [|] data]; reflexivity.
Qed.

Lemma arrival_clears_loading_witness :
  exists y',
    Viewer.step Examples.noDates
      (Viewer.Arrive 0 (Examples.answer [Examples.eventA]))
      (Viewer.selectGroup (Some "/svc/b")
         (Viewer.searchLogs Examples.noDates Examples.browsing)) = Some y' /\
    Viewer.loading (Viewer.state y') = false /\
    List.length (Viewer.inflight y') = 1%nat.
Proof.
  destruct (arrival_clears_loading Examples.noDates
              (Viewer.selectGroup (Some "/svc/b")
                 (Viewer.searchLogs Examples.noDates Examples.browsing))
              0
              (Viewer.PostSearch
                 (Viewer.searchParams Examples.noDates "/svc/a"
                    (Viewer.state Examples.browsing)))
              (Examples.answer [Examples.eventA]) eq_refl)
    as (y' & Hstep & Hload & Hin & _).
  exists y'. split; [exact Hstep|]. split; [exact Hload|].
  rewrite Hin. reflexivity.
Defined.

(** ** The viewer: clearing and re-selecting *)

(** X9.  Clear Filters empties the selection, the pattern, the times, the
    event list, both queries and the error; it keeps the group list and
    the loading flag, starts no request and withdraws none.  The stream
    list is emptied when a group was selected and is otherwise left as it
    is. *)
Theorem clear_resets (getTime : string -> option Z) (y : Viewer.Sys) :
  exists y',
    Viewer.step getTime Viewer.Clear y = Some y' /\
    Viewer.inflight y' = Viewer.inflight y /\
    Viewer.selectedLogGroup (Viewer.state y') = Some "" /\
    Viewer.selectedLogStream (Viewer.state y') = Some "" /\
    Viewer.filterPattern (Viewer.state y') = "" /\
    Viewer.startTime (Viewer.state y') = "" /\
    Viewer.endTime (Viewer.state y') = "" /\
    Viewer.logEvents (Viewer.state y') = [] /\
    Viewer.logGroupQuery (Viewer.state y') = "" /\
    Viewer.logStreamQuery (Viewer.state y') = "" /\
    Viewer.error (Viewer.state y') = "" /\
    Viewer.logGroups (Viewer.state y') = Viewer.logGroups (Viewer.state y) /\
    Viewer.loading (Viewer.state y') = Viewer.loading (Viewer.state y) /\
    (Viewer.selectedLogGroup (Viewer.state y) <> Some "" ->
     Viewer.logStreams (Viewer.state y') = []) /\
    (Viewer.selectedLogGroup (Viewer.state y) = Some "" ->
     Viewer.logStreams (Viewer.state y') = Viewer.logStreams (Viewer.state y)).
Proof.
  rewrite clear_step. eexists. split; [reflexivity|].
  cbn [Viewer.state Viewer.inflight Viewer.selectedLogGroup
       Viewer.selectedLogStream Viewer.filterPattern Viewer.startTime
       Viewer.endTime Viewer.logEvents Viewer.logGroupQuery
       Viewer.logStreamQuery Viewer.error Viewer.logGroups Viewer.loading
       Viewer.logStreams].
  repeat (split; [reflexivity|]). split.
  - intros Hne.
    destruct (Viewer.selectedLogGroup (Viewer.state y)) as [g|];
      [|reflexivity].
    simpl. destruct (String.eqb_spec g ""); [subst; contradiction|reflexivity].
  - intros Heq. rewrite Heq. reflexivity.
Qed.

Lemma clear_resets_witness :
  exists y',
    Viewer.step Examples.noDates Viewer.Clear Examples.browsing = Some y' /\
    Viewer.logEvents (Viewer.state y') = [] /\
    Viewer.logStreams (Viewer.state y') = [].
Proof.
  destruct (clear_resets Examples.noDates Examples.browsing)
    as (y' & Hstep & _ & _ & _ & _ & _ & _ & Hev & _ & _ & _ & _ & _
        & Hstreams & _).
  exists y'. split; [exact Hstep|]. split; [exact Hev|].
  apply Hstreams. discriminate.
Defined.

(** X10.  Clear Filters does not withdraw a search that is in flight:
    when its response arrives after the clearing it is stored, so events
    are displayed although no group is selected. *)
Theorem clear_does_not_cancel (getTime : string -> option Z)
    (y : Viewer.Sys) (n : nat) (b : Route.SearchBody) (data : Viewer.Data) :
  nth_error (Viewer.inflight y) n = Some (Viewer.PostSearch b) ->
  exists y',
    Viewer.run getTime
      [Viewer.Clear; Viewer.Arrive n (Viewer.Answered true data)] y
    = Some y' /\
    Viewer.logEvents (Viewer.state y') = Viewer.d_events data /\
    Viewer.selectedLogGroup (Viewer.state y') = Some "".
Proof.
  intros Hq. cbn [Viewer.run]. rewrite clear_step.
  cbn [Viewer.step Viewer.inflight]. rewrite Hq.
  eexists. split; [reflexivity|]. split; reflexivity.
Qed.

Lemma clear_does_not_cancel_witness :
  exists y',
    Viewer.run Examples.noDates
      [ Viewer.Clear;
        Viewer.Arrive 0
          (Viewer.Answered true (Viewer.mkData None [] [] [Examples.eventA])) ]
      (Viewer.searchLogs Examples.noDates Examples.browsing) = Some y' /\
    Viewer.logEvents (Viewer.state y')
    = Viewer.d_events (Viewer.mkData None [] [] [Examples.eventA]) /\
    Viewer.selectedLogGroup (Viewer.state y') = Some "".
Proof.
  exact (clear_does_not_cancel Examples.noDates
           (Viewer.searchLogs Examples.noDates Examples.browsing) 0
           (Viewer.searchParams Examples.noDates "/svc/a"
              (Viewer.state Examples.browsing))
           (Viewer.mkData None [] [] [Examples.eventA]) eq_refl).
Defined.

Lemma empty_group_kept (getTime : string -> option Z)
    (actions : list Viewer.Action) :
  (forall value, In (Viewer.SelectGroup value) actions ->
                 or_string value "" = "") ->
  forall y y',
    Viewer.selectedLogGroup (Viewer.state y) = Some "" ->
    Viewer.run getTime actions y = Some y' ->
    Viewer.selectedLogGroup (Viewer.state y') = Some "".
Proof.
  induction actions as [|a rest IH]; intros Hno y y' Hy Hrun;
    cbn [Viewer.run] in Hrun.
  - injection Hrun as <-. exact Hy.
  - destruct (Viewer.step getTime a y) as [y1|] eqn:Hstep; [|discriminate].
    apply (IH (fun value Hin => Hno value (or_intror Hin)) y1 y');
      [|exact Hrun].
    destruct a;
      try (rewrite (step_keeps_group getTime _ y y1 Hstep);
           [exact Hy | discriminate | intros ?; discriminate]).
    + cbn [Viewer.step] in Hstep. injection Hstep as <-.
      assert (He : or_string value "" = "")
        by (apply Hno; left; reflexivity).
      rewrite reselect_same_group_eq by (rewrite He; exact Hy). exact Hy.
    + rewrite clear_step in Hstep. injection Hstep as <-. reflexivity.
Qed.

(** X11.  After Clear Filters no search can be started until a group is
    chosen again: whatever is typed or picked and whichever responses
    arrive afterwards, as long as the group dropdown is not set to a
    name that is not empty, the selected group stays the empty string,
    the submit button stays disabled and the form cannot be submitted. *)
Theorem no_search_until_group_chosen (getTime : string -> option Z)
    (y y1 : Viewer.Sys) (actions : list Viewer.Action) :
  (forall value, In (Viewer.SelectGroup value) actions ->
                 or_string value "" = "") ->
  Viewer.run getTime (Viewer.Clear :: actions) y = Some y1 ->
  Viewer.selectedLogGroup (Viewer.state y1) = Some "" /\
  Viewer.canSubmit (Viewer.state y1) = false /\
  Viewer.step getTime Viewer.Submit y1 = None /\
  Viewer.run getTime (Viewer.Clear :: actions ++ [Viewer.Submit]) y = None.
Proof.
  intros Hno Hrun.
  assert (Hg : Viewer.selectedLogGroup (Viewer.state y1) = Some "").
  { cbn [Viewer.run] in Hrun. rewrite clear_step in Hrun.
    apply (empty_group_kept getTime actions Hno _ y1) in Hrun;
      [exact Hrun | reflexivity]. }
  assert (Hsub : Viewer.step getTime Viewer.Submit y1 = None)
    by (apply submit_disabled; rewrite Hg; reflexivity).
  split; [exact Hg|]. split; [|split; [exact Hsub|]].
  - unfold Viewer.canSubmit. rewrite Hg. apply andb_false_r.
  - change (Viewer.Clear :: actions ++ [Viewer.Submit])
      with ((Viewer.Clear :: actions) ++ [Viewer.Submit]).
    rewrite run_app, Hrun. cbn [Viewer.run]. rewrite Hsub. reflexivity.
Qed.

Lemma no_search_until_group_chosen_witness :
  Viewer.run Examples.noDates
    [ Viewer.Clear; Viewer.TypeFilterPattern "ERROR"; Viewer.SelectGroup None;
      Viewer.SelectStream (Some "2024/01/01/x") ]
    Examples.browsing
  = Some (Viewer.mkSys
            (Viewer.mkState [Examples.groupA; Examples.groupB] [] (Some "")
               (Some "2024/01/01/x") "ERROR" "" "" [] false "" "" "")
            []) /\
  Viewer.step Examples.noDates Viewer.Submit
    (Viewer.mkSys
       (Viewer.mkState [Examples.groupA; Examples.groupB] [] (Some "")
          (Some "2024/01/01/x") "ERROR" "" "" [] false "" "" "")
       []) = None.
Proof.
  assert (Hrun :
    Viewer.run Examples.noDates
      [ Viewer.Clear; Viewer.TypeFilterPattern "ERROR";
        Viewer.SelectGroup None; Viewer.SelectStream (Some "2024/01/01/x") ]
      Examples.browsing
    = Some (Viewer.mkSys
              (Viewer.mkState [Examples.groupA; Examples.groupB] [] (Some "")
                 (Some "2024/01/01/x") "ERROR" "" "" [] false "" "" "")
              [])) by (vm_compute; reflexivity).
  split; [exact Hrun|].
  assert (Hno : forall value,
             In (Viewer.SelectGroup value)
                [ Viewer.TypeFilterPattern "ERROR"; Viewer.SelectGroup None;
                  Viewer.SelectStream (Some "2024/01/01/x") ] ->
             or_string value "" = "").
  { intros value [H | [H | [H | []]]]; try discriminate.
    injection H as <-. reflexivity. }
  destruct (no_search_until_group_chosen Examples.noDates Examples.browsing
              _ _ Hno Hrun) as (_ & _ & Hsub & _).
  exact Hsub.
Defined.

(** X12.  Choosing the group that is already selected changes nothing
    and does not fetch its streams again: the group effect runs only when
    the selected group differs from the one of the previous render. *)
Theorem reselect_same_group (y : Viewer.Sys) (value : option string) :
  Viewer.selectedLogGroup (Viewer.state y) = Some (or_string value "") ->
  Viewer.selectGroup value y = y.
Proof.
  intros Hsame. unfold Viewer.selectGroup, Viewer.afterRender.
  destruct y as [s inflight]. destruct s. simpl in *.
  rewrite Hsame. simpl. rewrite String.eqb_refl. reflexivity.
Qed.

Lemma reselect_same_group_witness :
  Viewer.selectGroup (Some "/svc/a") Examples.browsing = Examples.browsing.
Proof.
  apply (reselect_same_group Examples.browsing (Some "/svc/a")). reflexivity.
Defined.

Lemma settle_selection (fallback : string)
    (apply : Viewer.Data -> Viewer.State -> Viewer.State)
    (r : Viewer.Response) (s : Viewer.State) :
  (forall data s0, Selection.is_set s0 -> Selection.is_set (apply data s0)) ->
  Selection.is_set s -> Selection.is_set (Viewer.settle fallback apply r s).
Proof.
  intros Happly Hs. unfold Viewer.settle.
  destruct r as [message | [|] data]; simpl.
  - exact Hs.
  - destruct (Happly data s Hs). split; assumption.
  - exact Hs.
Qed.

Lemma step_selection (getTime : string -> option Z) (a : Viewer.Action)
    (y y' : Viewer.Sys) :
  Selection.is_set (Viewer.state y) ->
  Viewer.step getTime a y = Some y' ->
  Selection.is_set (Viewer.state y').
Proof.
  intros Hs Hstep. destruct a;
    try (rewrite clear_step in Hstep; injection Hstep as <-;
         split; discriminate);
    cbn [Viewer.step] in Hstep.
  - injection Hstep as <-. destruct y as [s inflight]. destruct s.
    destruct Hs as (Hg & Hst). simpl in Hg, Hst.
    unfold Viewer.selectGroup, Viewer.afterRender, Viewer.groupEffect,
      Viewer.fetchLogStreams. simpl.
    destruct (Viewer.same_selection _ _); simpl;
      [split; [discriminate | assumption]|].
    destruct (truthy_string (or_string value "")); simpl;
      split; try discriminate; assumption.
  - injection Hstep as <-. split; [apply Hs | discriminate].
  - injection Hstep as <-. exact Hs.
  - injection Hstep as <-. exact Hs.
  - injection Hstep as <-. exact Hs.
  - injection Hstep as <-. exact Hs.
  - injection Hstep as <-. exact Hs.
  - destruct (Viewer.canSubmit (Viewer.state y)); [|discriminate].
    injection Hstep as <-. unfold Viewer.searchLogs.
    destruct (Viewer.selectedLogGroup (Viewer.state y)) as [g|];
      [destruct (truthy_string g)|]; exact Hs.
  - destruct (nth_error (Viewer.inflight y) n) as [q|]; [|discriminate].
    injection Hstep as <-. simpl.
    destruct q; apply settle_selection; auto.
Qed.

(** X13.  The two selection cells are typed [string | null], but no
    action of the component stores [null] in them: from a state where
    both hold a string, in particular from the mounted component, they
    hold a string after every run. *)
Theorem selection_never_null (getTime : string -> option Z)
    (actions : list Viewer.Action) :
  forall y y',
    Selection.is_set (Viewer.state y) ->
    Viewer.run getTime actions y = Some y' ->
    Selection.is_set (Viewer.state y').
Proof.
  induction actions as [|a rest IH]; intros y y' Hs Hrun; simpl in Hrun.
  - injection Hrun as <-. exact Hs.
  - destruct (Viewer.step getTime a y) as [y1|] eqn:Hstep; [|discriminate].
    apply (IH y1 y'); [|exact Hrun].
    exact (step_selection getTime a y y1 Hs Hstep).
Qed.

Lemma selection_never_null_witness :
  Selection.is_set (Viewer.state Viewer.mounted) /\
  exists y',
    Viewer.run Examples.noDates
      [ Viewer.SelectGroup None; Viewer.SelectStream None;
        Viewer.Arrive 0 (Viewer.Rejected "offline"); Viewer.Clear ]
      Viewer.mounted = Some y' /\
    Selection.is_set (Viewer.state y').
Proof.
  assert (Hm : Selection.is_set (Viewer.state Viewer.mounted))
    by (split; discriminate).
  split; [exact Hm|].
  eexists. split; [vm_compute; reflexivity|].
  apply (selection_never_null Examples.noDates
           [ Viewer.SelectGroup None; Viewer.SelectStream None;
             Viewer.Arrive 0 (Viewer.Rejected "offline"); Viewer.Clear ]
           Viewer.mounted _ Hm).
  vm_compute. reflexivity.
Defined.

(** ** The filtered views: refining and case *)

Lemma filter_refines_test {A : Type} (P Q : A -> bool) (l : list A) :
  (forall x, Q x = true -> P x = true) ->
  filter Q (filter P l) = filter Q l.
Proof.
  intros Himp. induction l as [|x l IH]; simpl; [reflexivity|].
  destruct (P x) eqn:HP; simpl.
  - rewrite IH. reflexivity.
  - destruct (Q x) eqn:HQ; [|exact IH].
    apply Himp in HQ. congruence.
Qed.

Lemma string_app_assoc (a b c : string) :
  ((a ++ b) ++ c = a ++ (b ++ c))%string.
Proof. induction a as [|x a IH]; simpl; [|rewrite IH]; reflexivity. Qed.

Lemma contains_ci_trans (toLowerCase : string -> string) (a b c : string) :
  Filter.contains_ci toLowerCase a b -> Filter.contains_ci toLowerCase b c ->
  Filter.contains_ci toLowerCase a c.
Proof.
  intros (p1 & s1 & Hab) (p2 & s2 & Hbc).
  exists (p1 ++ p2)%string, (s2 ++ s1)%string.
  rewrite Hab, Hbc, !string_app_assoc. reflexivity.
Qed.

Lemma eq_ignore_case_empty (a b : string) :
  Filter.eq_ignore_case a b -> (a = "" <-> b = "").
Proof.
  destruct a, b; simpl; intros H; split; intros E;
    try reflexivity; try contradiction; discriminate.
Qed.

(** X14.  A longer query narrows the view: when the lower-cased query
    [q] is a contiguous part of the lower-cased query [q'] (and [q'] is
    not the empty query unless [q] is), the filter for [q'] applied to the
    view for [q] gives the view for [q'].  With [q' = q]: filtering a
    filtered view again changes nothing. *)
Theorem filter_refines {A : Type} (toLowerCase : string -> string)
    (name : A -> string) (q q' : string) (items : list A) :
  (q' = "" -> q = "") ->
  Filter.contains_ci toLowerCase q' q ->
  Filter.filtered toLowerCase name q' (Filter.filtered toLowerCase name q items)
  = Filter.filtered toLowerCase name q' items.
Proof.
  intros Hempty Hocc. unfold Filter.filtered.
  destruct (String.eqb_spec q' "") as [E | Hq'].
  - rewrite (Hempty E). reflexivity.
  - destruct (String.eqb_spec q "") as [-> | Hq]; [reflexivity|].
    apply filter_refines_test. intros x Hx.
    apply includes_lower_spec. apply includes_lower_spec in Hx.
    exact (contains_ci_trans toLowerCase _ _ _ Hx Hocc).
Qed.

Lemma filter_refines_witness :
  Filter.filteredLogGroups Filter.asciiLowerCase "alphab"
    (Filter.filteredLogGroups Filter.asciiLowerCase "ALPHA"
       [Examples.named "Alpha"; Examples.named "beta";
        Examples.named "ALPHABET"])
  = Filter.filteredLogGroups Filter.asciiLowerCase "alphab"
      [Examples.named "Alpha"; Examples.named "beta";
       Examples.named "ALPHABET"].
Proof.
  apply (filter_refines Filter.asciiLowerCase logGroupName "ALPHA" "alphab").
  - discriminate.
  - exists "", "b". reflexivity.
Defined.

(** X15.  For queries of ASCII characters the case of the letters does
    not matter: two such queries that are equal up to case give the same
    view, whatever the names are. *)
Theorem filter_ignores_query_case {A : Type} (toLowerCase : string -> string)
    (name : A -> string) (q1 q2 : string) (items : list A) :
  Filter.agrees_on_ascii toLowerCase ->
  Filter.ascii_only q1 -> Filter.ascii_only q2 ->
  Filter.eq_ignore_case q1 q2 ->
  Filter.filtered toLowerCase name q1 items
  = Filter.filtered toLowerCase name q2 items.
Proof.
  intros Hascii H1 H2 Heq. unfold Filter.filtered.
  pose proof (eq_ignore_case_empty q1 q2 Heq) as Hempty.
  apply eq_ignore_case_lower in Heq.
  rewrite (Hascii q1 H1), (Hascii q2 H2), Heq.
  destruct (String.eqb_spec q1 ""), (String.eqb_spec q2 "");
    try reflexivity; tauto.
Qed.

Lemma filter_ignores_query_case_witness :
  Filter.filteredLogGroups Filter.asciiLowerCase "SVC/a"
    [Examples.groupA; Examples.groupB]
  = Filter.filteredLogGroups Filter.asciiLowerCase "svc/A"
      [Examples.groupA; Examples.groupB].
Proof.
  apply (filter_ignores_query_case Filter.asciiLowerCase logGroupName
           "SVC/a" "svc/A").
  - intros s _. reflexivity.
  - reflexivity.
  - reflexivity.
  - simpl. repeat split.
Defined.

(** ** The dropdowns: keys and the scroll effect *)

(** X16.  On a row of a list of [n] rows, ArrowDown moves the active
    index one row down and stays on the last row, ArrowUp moves it one
    row up and stays on the first; both open the dropdown; and
    ArrowDown followed by ArrowUp returns to the row unless it was the
    last one. *)
Theorem arrow_keys_on_a_row (v : Dropdown.View) :
  0 <= Dropdown.activeIndex v < Z.of_nat (Dropdown.itemCount v) ->
  let a := Dropdown.activeIndex v in
  let last_row := Z.of_nat (Dropdown.itemCount v) - 1 in
  let down := Dropdown.onKeyDown Dropdown.ArrowDown v in
  let up := Dropdown.onKeyDown Dropdown.ArrowUp v in
  (a < last_row -> Dropdown.activeIndex down = a + 1) /\
  (a = last_row -> Dropdown.activeIndex down = a) /\
  (0 < a -> Dropdown.activeIndex up = a - 1) /\
  (a = 0 -> Dropdown.activeIndex up = 0) /\
  Dropdown.isOpen down = true /\ Dropdown.isOpen up = true /\
  (a < last_row ->
   Dropdown.activeIndex (Dropdown.onKeyDown Dropdown.ArrowUp down) = a).
Proof.
  intros Hrow a last_row down up. subst a last_row down up. simpl.
  repeat split; intros; lia.
Qed.

Lemma arrow_keys_on_a_row_witness :
  Dropdown.activeIndex
    (Dropdown.onKeyDown Dropdown.ArrowUp
       (Dropdown.onKeyDown Dropdown.ArrowDown (Dropdown.mkView true 1 3 true)))
  = 1.
Proof.
  destruct (arrow_keys_on_a_row (Dropdown.mkView true 1 3 true))
    as (_ & _ & _ & _ & _ & _ & Hback).
  - simpl. lia.
  - apply Hback. simpl. lia.
Defined.

(** X17.  After the list has shrunk below the active index, one press of
    ArrowDown puts the index on the last row of a non-empty list; ArrowUp
    only moves it one row up, so from more than one row beyond the end it
    stays beyond the end.  From -1 (ArrowDown on an empty list) ArrowUp
    gives 0. *)
Theorem arrow_keys_beyond_the_end (v : Dropdown.View) :
  let a := Dropdown.activeIndex v in
  let n := Z.of_nat (Dropdown.itemCount v) in
  (n - 1 <= a ->
   Dropdown.activeIndex (Dropdown.onKeyDown Dropdown.ArrowDown v) = n - 1) /\
  (n < a ->
   n <= Dropdown.activeIndex (Dropdown.onKeyDown Dropdown.ArrowUp v)) /\
  (a <= 0 ->
   Dropdown.activeIndex (Dropdown.onKeyDown Dropdown.ArrowUp v) = 0).
Proof. simpl. repeat split; intros; lia. Qed.

Lemma arrow_keys_beyond_the_end_witness :
  Dropdown.activeIndex
    (Dropdown.onKeyDown Dropdown.ArrowDown (Dropdown.mkView true 7 2 true)) = 1
  /\ 2 <= Dropdown.activeIndex
            (Dropdown.onKeyDown Dropdown.ArrowUp (Dropdown.mkView true 7 2 true)).
Proof.
  destruct (arrow_keys_beyond_the_end (Dropdown.mkView true 7 2 true))
    as (Hdown & Hup & _).
  split; [apply Hdown | apply Hup]; simpl; lia.
Defined.

Lemma deps_unchanged (v : Dropdown.View) : Dropdown.deps_changed v v = false.
Proof.
  unfold Dropdown.deps_changed.
  rewrite Bool.eqb_reflx, Z.eqb_refl, Nat.eqb_refl. reflexivity.
Qed.

(** X18.  The container of the options is not a dependency of the scroll
    effect: mounting or unmounting it never scrolls, nor does a key other
    than the two arrows.  So when the dropdown is opened by focus before
    its container is mounted, the active row is not scrolled to, neither
    at the focus nor when the container mounts. *)
Theorem mounting_never_scrolls (v : Dropdown.View) (mounted : bool) :
  snd (Dropdown.step (Dropdown.RefChanged mounted) v) = [] /\
  snd (Dropdown.step (Dropdown.KeyDown Dropdown.OtherKey) v) = [] /\
  (Dropdown.parentRef v = false ->
   snd (Dropdown.run [Dropdown.Focus; Dropdown.RefChanged true] v) = []).
Proof.
  assert (Href : forall w b, snd (Dropdown.step (Dropdown.RefChanged b) w) = []).
  { intros w b. unfold Dropdown.step, Dropdown.deps_changed. simpl.
    rewrite Bool.eqb_reflx, Z.eqb_refl, Nat.eqb_refl. reflexivity. }
  split; [apply Href|]. split.
  - unfold Dropdown.step. simpl. rewrite deps_unchanged. reflexivity.
  - intros Hno. rewrite run_cons, run_cons. rewrite Href. simpl.
    unfold Dropdown.scrollEffect. simpl. rewrite Hno.
    destruct (Dropdown.deps_changed _ _); reflexivity.
Qed.

Lemma mounting_never_scrolls_witness :
  snd (Dropdown.run [Dropdown.Focus; Dropdown.RefChanged true]
                    (Dropdown.initial 5)) = [].
Proof.
  destruct (mounting_never_scrolls (Dropdown.initial 5) true) as (_ & _ & H).
  apply H. reflexivity.
Defined.

(** ** useDebounce: what a run keeps *)

Lemma last_default_time (l : list (Z * string)) :
  forall t u v, snd (last l (t, v)) = snd (last l (u, v)).
Proof.
  induction l as [|x l IH]; intros t u v; [reflexivity|].
  rewrite !last_cons. reflexivity.
Qed.

Lemma current_render v0 t v d0 rest :
  Settled.current v0 ((t, Debounce.Render v d0) :: rest)
  = Settled.current v rest.
Proof.
  unfold Settled.current. simpl Debounce.renders. rewrite last_cons.
  apply last_default_time.
Qed.

Lemma render_dep_value t v d0 h :
  Debounce.dep_value (Debounce.render t v d0 h) = v.
Proof.
  unfold Debounce.render.
  destruct (String.eqb_spec v (Debounce.dep_value h)); simpl; [|reflexivity].
  destruct (d0 =? Debounce.dep_delay h); simpl; congruence.
Qed.

Lemma render_consistent t v d0 h :
  Settled.consistent h -> Settled.consistent (Debounce.render t v d0 h).
Proof.
  intros Hc. unfold Debounce.render.
  destruct ((v =? Debounce.dep_value h)%string && (d0 =? Debounce.dep_delay h));
    [exact Hc|].
  split; simpl.
  - intros tm H. injection H as <-. reflexivity.
  - discriminate.
Qed.

Lemma run_consistent (trace : list (Z * Debounce.Event)) :
  forall s s',
    Settled.consistent (Debounce.hook s) ->
    Debounce.run trace s = Some s' ->
    Settled.consistent (Debounce.hook s') /\
    Debounce.dep_value (Debounce.hook s')
    = Settled.current (Debounce.dep_value (Debounce.hook s)) trace.
Proof.
  induction trace as [|[t e] rest IH]; intros s s' Hc Hrun.
  - simpl in Hrun. injection Hrun as <-. split; [exact Hc | reflexivity].
  - simpl in Hrun. destruct (t <? Debounce.clock s); [discriminate|].
    destruct e as [v d0|].
    + apply IH in Hrun; [|simpl; apply render_consistent; exact Hc].
      simpl in Hrun. rewrite render_dep_value in Hrun.
      rewrite current_render. exact Hrun.
    + unfold Debounce.fire in Hrun.
      destruct (Debounce.handler (Debounce.hook s)) as [tm|] eqn:Hh;
        [|discriminate].
      destruct (Debounce.due tm <=? t); [|discriminate].
      apply IH in Hrun.
      * simpl in Hrun. exact Hrun.
      * split; simpl; [discriminate|]. intros _. apply Hc. exact Hh.
Qed.

(** X19.  Whenever no timer is pending, the debounced value is the raw
    value of the latest render: once the timer has run the filter is not
    left behind the input, whatever the renders and their delays were. *)
Theorem settled_value_is_current (t0 : Z) (v0 : string) (d0 : Z)
    (trace : list (Z * Debounce.Event)) (s : Debounce.Sys) :
  Debounce.run trace (Debounce.start t0 v0 d0) = Some s ->
  Debounce.handler (Debounce.hook s) = None ->
  Debounce.useDebounce (Debounce.hook s) = Settled.current v0 trace.
Proof.
  intros Hrun Hnone.
  destruct (run_consistent trace (Debounce.start t0 v0 d0) s) as (Hc & Hv).
  - split; simpl; [intros tm H; injection H as <-; reflexivity | discriminate].
  - exact Hrun.
  - unfold Debounce.useDebounce. destruct Hc as (_ & Hsettled).
    rewrite (Hsettled Hnone). exact Hv.
Qed.

Lemma settled_value_is_current_witness :
  exists s,
    Debounce.run [ (100, Debounce.Render "a" 300); (150, Debounce.Render "ab" 50);
                   (200, Debounce.Timeout) ]
                 (Debounce.start 0 "" 300) = Some s /\
    Debounce.handler (Debounce.hook s) = None /\
    Debounce.useDebounce (Debounce.hook s) = "ab".
Proof.
  eexists. split; [reflexivity|]. split; [reflexivity|].
  apply (settled_value_is_current 0 "" 300
           [ (100, Debounce.Render "a" 300); (150, Debounce.Render "ab" 50);
             (200, Debounce.Timeout) ]); reflexivity.
Defined.

(** X20.  Debouncing is not throttling: while raw inputs keep coming,
    each a new value less than [d] after the one before, nothing is
    emitted.  For a delay [d] below 2^31, a run over such a burst that
    ends with a timer pending has emitted nothing since the first input,
    and the debounced value is still the one from before the burst,
    however long the burst. *)
Theorem burst_emits_nothing (d : Z) (s0 : Debounce.Sys) (t1 : Z)
    (v1 : string) (inputs : list (Z * string))
    (trace : list (Z * Debounce.Event)) (s' : Debounce.Sys) :
  d < 2147483648 ->
  v1 <> Debounce.dep_value (Debounce.hook s0) ->
  Debounce.burst d t1 v1 inputs ->
  Debounce.renders trace = inputs ->
  Debounce.delay_is d trace ->
  Debounce.run ((t1, Debounce.Render v1 d) :: trace) s0 = Some s' ->
  Debounce.handler (Debounce.hook s') <> None ->
  Debounce.emitted s' = Debounce.emitted s0 /\
  Debounce.useDebounce (Debounce.hook s')
  = Debounce.useDebounce (Debounce.hook s0).
Proof.
  intros Hsmall Hv Hb Hr Hd Hrun Hpending.
  simpl in Hrun. destruct (t1 <? Debounce.clock s0); [discriminate|].
  rewrite render_new_value in Hrun by exact Hv.
  pose proof (fun Hh Hval =>
                burst_run d trace Hsmall _ s' t1 v1 inputs
                  Hh Hval Hb Hr Hd Hrun) as Hrun'.
  destruct (Hrun' eq_refl eq_refl) as (Hsilent & _).
  exact (Hsilent Hpending).
Qed.

Lemma burst_emits_nothing_witness :
  exists s',
    Debounce.run [ (50, Debounce.Render "a" 300);
                   (150, Debounce.Render "ab" 300);
                   (250, Debounce.Render "abc" 300) ]
                 (Debounce.start 0 "" 300) = Some s' /\
    Debounce.emitted s' = [] /\
    Debounce.useDebounce (Debounce.hook s') = "".
Proof.
  eexists. split; [reflexivity|].
  apply (burst_emits_nothing 300 (Debounce.start 0 "" 300) 50 "a"
           [(150, "ab"); (250, "abc")]
           [ (150, Debounce.Render "ab" 300); (250, Debounce.Render "abc" 300) ]).
  - lia.
  - discriminate.
  - simpl. repeat split; try discriminate; lia.
  - reflexivity.
  - simpl. auto.
  - reflexivity.
  - discriminate.
Defined.

(** ** AdvancedSearch.tsx: the list of criteria *)

Section CriteriaFacts.

Import AdvancedSearch.

Lemma keep_others_absent (i : string) (l : list SearchCriteria) :
  ~ In i (map id l) ->
  filter (fun c => negb (id c =? i)%string) l = l.
Proof.
  induction l as [|c l IH]; intros Hnot; simpl; [reflexivity|].
  destruct (String.eqb_spec (id c) i) as [E | E]; simpl.
  - exfalso. apply Hnot. left. exact E.
  - rewrite IH; [reflexivity|]. intros H. apply Hnot. right. exact H.
Qed.

Lemma keep_others_removes (i : string) (l : list SearchCriteria) :
  ~ In i (map id (filter (fun c => negb (id c =? i)%string) l)).
Proof.
  induction l as [|c l IH]; simpl; [tauto|].
  destruct (String.eqb_spec (id c) i) as [E | E]; simpl; [exact IH|].
  intros [H | H]; [contradiction | exact (IH H)].
Qed.

Lemma keep_others_length (i : string) (l : list SearchCriteria) :
  NoDup (map id l) -> In i (map id l) ->
  S (List.length (filter (fun c => negb (id c =? i)%string) l))
  = List.length l.
Proof.
  induction l as [|c l IH]; intros Hnd Hin; simpl in *; [contradiction|].
  inversion Hnd as [|? ? Hfresh Hnd']; subst.
  destruct (String.eqb_spec (id c) i) as [E | E]; simpl.
  - subst i. rewrite keep_others_absent by exact Hfresh. reflexivity.
  - f_equal. apply IH; [exact Hnd'|]. destruct Hin; [contradiction | assumption].
Qed.

Lemma filter_ids_NoDup (f : SearchCriteria -> bool) (l : list SearchCriteria) :
  NoDup (map id l) -> NoDup (map id (filter f l)).
Proof.
  induction l as [|c l IH]; intros Hnd; simpl; [constructor|].
  inversion Hnd as [|? ? Hfresh Hnd']; subst.
  destruct (f c); simpl; [|exact (IH Hnd')].
  constructor; [|exact (IH Hnd')].
  intros Hin. apply Hfresh. apply in_map_iff in Hin.
  destruct Hin as (x & Hx & Hin). apply filter_In in Hin.
  apply in_map_iff. exists x. tauto.
Qed.

End CriteriaFacts.

(** X21.  While the ids of the criteria are distinct, the list of
    criteria never becomes empty and the ids stay distinct: removing by an
    id that is present takes out exactly that criterion when there are at
    least two, and changes nothing when there is one; removing by an
    absent id changes nothing; adding with a fresh id, updating fields
    other than the id, and resetting keep the property. *)
Theorem criteria_never_empty (s : AdvancedSearch.State) :
  AdvancedSearch.criteria s <> [] ->
  NoDup (AdvancedSearch.ids s) ->
  (forall i,
      let s' := AdvancedSearch.removeCriteria i s in
      AdvancedSearch.criteria s' <> [] /\
      NoDup (AdvancedSearch.ids s') /\
      (In i (AdvancedSearch.ids s) ->
       (1 < List.length (AdvancedSearch.criteria s))%nat ->
       S (List.length (AdvancedSearch.criteria s'))
       = List.length (AdvancedSearch.criteria s) /\
       ~ In i (AdvancedSearch.ids s')) /\
      (~ In i (AdvancedSearch.ids s) -> s' = s) /\
      (List.length (AdvancedSearch.criteria s) = 1%nat -> s' = s)) /\
  (forall now,
      ~ In now (AdvancedSearch.ids s) ->
      AdvancedSearch.criteria (AdvancedSearch.addCriteria now s) <> [] /\
      NoDup (AdvancedSearch.ids (AdvancedSearch.addCriteria now s))) /\
  (forall i u,
      AdvancedSearch.u_id u = None ->
      AdvancedSearch.ids (AdvancedSearch.updateCriteria i u s)
      = AdvancedSearch.ids s /\
      AdvancedSearch.criteria (AdvancedSearch.updateCriteria i u s) <> []) /\
  AdvancedSearch.criteria (AdvancedSearch.resetCriteria s) <> [] /\
  NoDup (AdvancedSearch.ids (AdvancedSearch.resetCriteria s)).
Proof.
  intros Hne Hnd. destruct s as [l level op]. unfold AdvancedSearch.ids in *.
  simpl in *. split; [|split; [|split; [|split]]].
  - intros i. unfold AdvancedSearch.removeCriteria. simpl.
    destruct (Nat.ltb_spec 1 (List.length l)) as [Hlen | Hlen]; simpl.
    + destruct (in_dec string_dec i (map AdvancedSearch.id l)) as [Hin | Hout].
      * pose proof (keep_others_length i l Hnd Hin) as Hl.
        split; [|split; [|split; [|split]]].
        -- intros E. rewrite E in Hl. simpl in Hl. lia.
        -- apply filter_ids_NoDup. exact Hnd.
        -- intros _ _. split; [exact Hl | apply keep_others_removes].
        -- intros Hout. contradiction.
        -- intros H1. lia.
      * rewrite (keep_others_absent i l Hout).
        split; [exact Hne|]. split; [exact Hnd|]. split; [|split].
        -- intros Hin. contradiction.
        -- reflexivity.
        -- reflexivity.
    + split; [exact Hne|]. split; [exact Hnd|]. split; [|split].
      * intros _ H1. lia.
      * reflexivity.
      * reflexivity.
  - intros now Hfresh. split.
    + destruct l; discriminate.
    + rewrite map_app. simpl. apply NoDup_app.
      * exact Hnd.
      * repeat constructor. intros [].
      * intros x Hx [<- | []]. contradiction.
  - intros i u Hu. split.
    + rewrite map_map. apply map_ext. intros c.
      destruct (AdvancedSearch.id c =? i)%string; [|reflexivity].
      simpl. rewrite Hu. reflexivity.
    + destruct l; [contradiction | discriminate].
  - discriminate.
  - repeat constructor. intros [].
Qed.

Lemma criteria_never_empty_witness :
  AdvancedSearch.criteria
    (AdvancedSearch.removeCriteria "1"
       (AdvancedSearch.addCriteria "1700000000000" AdvancedSearch.initialState))
  <> [] /\
  ~ In "1"
      (AdvancedSearch.ids
         (AdvancedSearch.removeCriteria "1"
            (AdvancedSearch.addCriteria "1700000000000"
               AdvancedSearch.initialState))).
Proof.
  destruct (criteria_never_empty
              (AdvancedSearch.addCriteria "1700000000000"
                 AdvancedSearch.initialState)) as (Hremove & _).
  - discriminate.
  - apply NoDup_cons; [simpl; intros [H | []]; discriminate|].
    apply NoDup_cons; [intros [] | apply NoDup_nil].
  - destruct (Hremove "1") as (Hne & _ & Hin & _).
    split; [exact Hne|]. apply Hin.
    + left. reflexivity.
    + simpl. lia.
Defined.

(** ** AdvancedSearch.tsx: the filter pattern *)

Section PatternFacts.

Import AdvancedSearch.

Variable trim : string -> string.

Lemma flat_map_pushed_ext (f : SearchCriteria -> SearchCriteria)
    (l : list SearchCriteria) :
  (forall c, In c l -> pushed trim (f c) = pushed trim c) ->
  flat_map (pushed trim) (map f l) = flat_map (pushed trim) l.
Proof.
  induction l as [|c l IH]; intros Hf; simpl; [reflexivity|].
  rewrite Hf by (left; reflexivity).
  rewrite IH; [reflexivity|]. intros x Hx. apply Hf. right. exact Hx.
Qed.

Lemma buildFilterPattern_patterns (s1 s2 : State) :
  patterns trim s1 = patterns trim s2 ->
  combineOperator s1 = combineOperator s2 ->
  buildFilterPattern trim s1 = buildFilterPattern trim s2.
Proof.
  intros Hp Hc. unfold buildFilterPattern. rewrite Hp, Hc. reflexivity.
Qed.

Lemma pushed_ignored (c : SearchCriteria) : ignored c -> pushed trim c = [].
Proof.
  unfold pushed. intros [H | [H | (H & Hop)]]; rewrite H; try rewrite Hop;
    destruct (negb (truthy_string (trim (value c)))); reflexivity.
Qed.

Lemma pushed_setOperator (c : SearchCriteria) (op : Operator) :
  plain op ->
  (field c = FMessage -> plain (operator c)) ->
  pushed trim (merge c (setOperator op)) = pushed trim c.
Proof.
  intros Hop Hc. unfold pushed. simpl.
  destruct (negb (truthy_string (trim (value c)))); [reflexivity|].
  destruct (field c) eqn:Hf; try reflexivity.
  destruct (Hc eq_refl) as [-> | [-> | ->]];
    destruct Hop as [-> | [-> | ->]]; reflexivity.
Qed.

Lemma pushed_blank (c : SearchCriteria) :
  blank trim (value c) -> pushed trim c = [].
Proof. unfold blank, pushed. intros ->. reflexivity. Qed.

(** The empty string has nothing to strip. *)
Hypothesis trim_empty : trim "" = "".

Lemma pushed_nonempty (c : SearchCriteria) (p : string) :
  In p (pushed trim c) -> p <> "".
Proof.
  unfold pushed.
  destruct (truthy_string (trim (value c))) eqn:Ht; simpl; [|contradiction].
  assert (Hv : value c <> "").
  { intros E. rewrite E, trim_empty in Ht. discriminate. }
  destruct (field c); try contradiction.
  - destruct (operator c); simpl; try contradiction;
      intros [<- | []]; try discriminate; exact Hv.
  - intros [<- | []]. exact Hv.
Qed.

Lemma patterns_nonempty (s : State) (p : string) :
  In p (patterns trim s) -> p <> "".
Proof.
  unfold patterns. rewrite in_app_iff. intros [H | H].
  - destruct (truthy_string (logLevel s)) eqn:Ht; [|contradiction].
    destruct H as [<- | []]. apply truthy_string_true. exact Ht.
  - apply in_flat_map in H. destruct H as (c & _ & Hp).
    exact (pushed_nonempty c p Hp).
Qed.

End PatternFacts.

(** X22.  The pattern does not tell the operators contains, equals and
    startsWith apart: switching the criteria of an id from one of them to
    another leaves the pattern as it is.  A criterion on the field
    timestamp or logLevel, or a message criterion with operator between,
    adds nothing to the pattern. *)
Theorem pattern_ignores_operator (trim : string -> string)
    (s : AdvancedSearch.State) :
  (forall i op,
      AdvancedSearch.plain op ->
      (forall c, In c (AdvancedSearch.criteria s) ->
                 AdvancedSearch.id c = i ->
                 AdvancedSearch.field c = AdvancedSearch.FMessage ->
                 AdvancedSearch.plain (AdvancedSearch.operator c)) ->
      AdvancedSearch.buildFilterPattern trim
        (AdvancedSearch.updateCriteria i (AdvancedSearch.setOperator op) s)
      = AdvancedSearch.buildFilterPattern trim s) /\
  (forall c,
      AdvancedSearch.ignored c ->
      AdvancedSearch.buildFilterPattern trim
        (AdvancedSearch.mkState (AdvancedSearch.criteria s ++ [c])
                                (AdvancedSearch.logLevel s)
                                (AdvancedSearch.combineOperator s))
      = AdvancedSearch.buildFilterPattern trim s).
Proof.
  split.
  - intros i op Hop Hplain. apply buildFilterPattern_patterns; [|reflexivity].
    unfold AdvancedSearch.patterns. simpl. f_equal.
    apply flat_map_pushed_ext. intros c Hc.
    destruct (String.eqb_spec (AdvancedSearch.id c) i) as [E | E];
      [|reflexivity].
    apply pushed_setOperator; [exact Hop|]. intros Hf.
    exact (Hplain c Hc E Hf).
  - intros c Hc. apply buildFilterPattern_patterns; [|reflexivity].
    unfold AdvancedSearch.patterns. simpl. f_equal.
    rewrite flat_map_app. simpl. rewrite (pushed_ignored trim c Hc), !app_nil_r.
    reflexivity.
Qed.

Lemma pattern_ignores_operator_witness :
  AdvancedSearch.buildFilterPattern AdvancedSearch.asciiTrim
    (AdvancedSearch.updateCriteria "1"
       (AdvancedSearch.setOperator AdvancedSearch.OStartsWith)
       (AdvancedSearch.mkState
          [AdvancedSearch.mkSearchCriteria "1" AdvancedSearch.FMessage
             AdvancedSearch.OContains "timeout" None]
          "ERROR" AdvancedSearch.AND))
  = AdvancedSearch.buildFilterPattern AdvancedSearch.asciiTrim
      (AdvancedSearch.mkState
         [AdvancedSearch.mkSearchCriteria "1" AdvancedSearch.FMessage
            AdvancedSearch.OContains "timeout" None]
         "ERROR" AdvancedSearch.AND).
Proof.
  destruct (pattern_ignores_operator AdvancedSearch.asciiTrim
              (AdvancedSearch.mkState
                 [AdvancedSearch.mkSearchCriteria "1" AdvancedSearch.FMessage
                    AdvancedSearch.OContains "timeout" None]
                 "ERROR" AdvancedSearch.AND)) as (Hop & _).
  apply Hop.
  - right. right. reflexivity.
  - intros c [<- | []] _ _. left. reflexivity.
Defined.

(** X23.  For every [trim] that leaves the empty string empty, as
    [String.prototype.trim] does: the pattern is the empty string
    exactly when nothing is pushed, since every pushed pattern is a
    non-empty string.  In particular it is empty when no log level is
    chosen and [trim] reduces every criterion's value to the empty
    string, as in the initial state and after a reset. *)
Theorem pattern_empty_iff (trim : string -> string)
    (s : AdvancedSearch.State) :
  trim "" = "" ->
  (AdvancedSearch.buildFilterPattern trim s = ""
   <-> AdvancedSearch.patterns trim s = []) /\
  (AdvancedSearch.logLevel s = "" ->
   (forall c, In c (AdvancedSearch.criteria s) ->
              AdvancedSearch.blank trim (AdvancedSearch.value c)) ->
   AdvancedSearch.buildFilterPattern trim s = "") /\
  AdvancedSearch.buildFilterPattern trim (AdvancedSearch.resetCriteria s) = "".
Proof.
  intros Htrim.
  assert (Hiff : forall s0,
             AdvancedSearch.buildFilterPattern trim s0 = ""
             <-> AdvancedSearch.patterns trim s0 = []).
  { intros s0. unfold AdvancedSearch.buildFilterPattern.
    pose proof (patterns_nonempty trim Htrim s0) as Hne.
    destruct (AdvancedSearch.patterns trim s0) as [|p [|p' ps]].
    - tauto.
    - split; [|discriminate]. intros E. exfalso.
      apply (Hne p); [left; reflexivity | exact E].
    - split; [|discriminate]. intros E. exfalso.
      destruct (AdvancedSearch.combineOperator s0); [|discriminate].
      simpl in E. destruct p; [|discriminate].
      apply (Hne ""); [left|]; reflexivity. }
  assert (Hblank : forall s0,
             AdvancedSearch.logLevel s0 = "" ->
             (forall c, In c (AdvancedSearch.criteria s0) ->
                        AdvancedSearch.blank trim (AdvancedSearch.value c)) ->
             AdvancedSearch.buildFilterPattern trim s0 = "").
  { intros s0 Hlevel Hall. apply Hiff. unfold AdvancedSearch.patterns.
    rewrite Hlevel. simpl.
    induction (AdvancedSearch.criteria s0) as [|c l IH]; [reflexivity|].
    simpl. rewrite (pushed_blank trim c (Hall c (or_introl eq_refl))). simpl.
    apply IH. intros x Hx. apply Hall. right. exact Hx. }
  split; [apply Hiff|]. split; [apply Hblank|].
  apply Hblank; [reflexivity|].
  intros c [<- | []]. exact Htrim.
Qed.

Lemma pattern_empty_iff_witness :
  AdvancedSearch.buildFilterPattern AdvancedSearch.asciiTrim
    (AdvancedSearch.mkState
       [AdvancedSearch.mkSearchCriteria "1" AdvancedSearch.FMessage
          AdvancedSearch.OContains "   " None]
       "" AdvancedSearch.OR) = "".
Proof.
  destruct (pattern_empty_iff AdvancedSearch.asciiTrim
              (AdvancedSearch.mkState
                 [AdvancedSearch.mkSearchCriteria "1" AdvancedSearch.FMessage
                    AdvancedSearch.OContains "   " None]
                 "" AdvancedSearch.OR) eq_refl) as (_ & Hblank & _).
  apply Hblank.
  - reflexivity.
  - intros c [<- | []]. reflexivity.
Defined.

(** X24.  With AND the pattern is the pushed patterns joined by single
    spaces, whatever their number.  With OR and at least two patterns it
    is the patterns joined by [" OR "] inside parentheses; with fewer
    than two, OR gives what AND gives. *)
Theorem pattern_combination (trim : string -> string)
    (s : AdvancedSearch.State) :
  AdvancedSearch.buildFilterPattern trim
    (AdvancedSearch.withCombine AdvancedSearch.AND s)
  = String.concat " " (AdvancedSearch.patterns trim s) /\
  ((2 <= List.length (AdvancedSearch.patterns trim s))%nat ->
   AdvancedSearch.buildFilterPattern trim
     (AdvancedSearch.withCombine AdvancedSearch.OR s)
   = ("(" ++ String.concat " OR " (AdvancedSearch.patterns trim s) ++ ")")%string) /\
  ((List.length (AdvancedSearch.patterns trim s) < 2)%nat ->
   AdvancedSearch.buildFilterPattern trim
     (AdvancedSearch.withCombine AdvancedSearch.OR s)
   = AdvancedSearch.buildFilterPattern trim
       (AdvancedSearch.withCombine AdvancedSearch.AND s)).
Proof.
  unfold AdvancedSearch.buildFilterPattern.
  change (AdvancedSearch.patterns trim (AdvancedSearch.withCombine _ s))
    with (AdvancedSearch.patterns trim s).
  destruct (AdvancedSearch.patterns trim s) as [|p [|p' ps]]; simpl;
    repeat split; intros; try reflexivity; lia.
Qed.

Lemma pattern_combination_witness :
  AdvancedSearch.buildFilterPattern AdvancedSearch.asciiTrim
    (AdvancedSearch.withCombine AdvancedSearch.OR
       (AdvancedSearch.mkState
          [AdvancedSearch.mkSearchCriteria "1" AdvancedSearch.FCustom
             AdvancedSearch.OContains "timeout" None]
          "ERROR" AdvancedSearch.AND))
  = "(ERROR OR timeout)".
Proof.
  destruct (pattern_combination AdvancedSearch.asciiTrim
              (AdvancedSearch.mkState
                 [AdvancedSearch.mkSearchCriteria "1" AdvancedSearch.FCustom
                    AdvancedSearch.OContains "timeout" None]
                 "ERROR" AdvancedSearch.AND)) as (_ & Hor & _).
  rewrite Hor; [reflexivity | simpl; lia].
Defined.

(** ** LogVisualization.tsx: level counts and statistics *)

Section LevelFacts.

Import LogVisualization.

Variable toLowerCase : string -> string.

Lemma count_event_total (levels : Levels) (event : LogEvent) :
  total (count_event toLowerCase levels event) = S (total levels).
Proof.
  unfold count_event, total.
  destruct (mentions toLowerCase event "error"
            || mentions toLowerCase event "fatal");
    [simpl; lia|].
  destruct (mentions toLowerCase event "warn"); [simpl; lia|].
  destruct (mentions toLowerCase event "info"); [simpl; lia|].
  destruct (mentions toLowerCase event "debug"); simpl; lia.
Qed.

Lemma fold_count_total (l : list LogEvent) :
  forall levels,
    total (fold_left (count_event toLowerCase) l levels)
    = (total levels + List.length l)%nat.
Proof.
  induction l as [|e l IH]; intros levels; simpl; [lia|].
  rewrite IH, count_event_total. lia.
Qed.

Lemma count_event_errors (levels : Levels) (event : LogEvent) :
  nERROR (count_event toLowerCase levels event)
  = if mentions toLowerCase event "error"
       || mentions toLowerCase event "fatal"
    then S (nERROR levels) else nERROR levels.
Proof.
  unfold count_event.
  destruct (mentions toLowerCase event "error"
            || mentions toLowerCase event "fatal");
    [reflexivity|].
  destruct (mentions toLowerCase event "warn"); [reflexivity|].
  destruct (mentions toLowerCase event "info"); [reflexivity|].
  destruct (mentions toLowerCase event "debug"); reflexivity.
Qed.

Lemma fold_count_errors (l : list LogEvent) :
  forall levels,
    nERROR (fold_left (count_event toLowerCase) l levels)
    = (nERROR levels
       + List.length
           (filter (fun event => mentions toLowerCase event "error"
                                 || mentions toLowerCase event "fatal")
                   l))%nat.
Proof.
  induction l as [|e l IH]; intros levels; simpl; [lia|].
  rewrite IH, count_event_errors.
  destruct (mentions toLowerCase e "error" || mentions toLowerCase e "fatal");
    simpl; lia.
Qed.

Lemma positive_sum (l : list (string * nat)) :
  list_sum (map snd (filter (fun e => (0 <? snd e)%nat) l))
  = list_sum (map snd l).
Proof.
  induction l as [|[name n] l IH]; simpl; [reflexivity|].
  destruct (Nat.ltb_spec 0 n); simpl; lia.
Qed.

Lemma NoDup_map_filter {A B : Type} (g : A -> B) (f : A -> bool) (l : list A) :
  NoDup (map g l) -> NoDup (map g (filter f l)).
Proof.
  induction l as [|x l IH]; intros Hnd; simpl; [constructor|].
  inversion Hnd as [|? ? Hfresh Hnd']; subst.
  destruct (f x); simpl; [|exact (IH Hnd')].
  constructor; [|exact (IH Hnd')].
  intros Hin. apply Hfresh. apply in_map_iff in Hin.
  destruct Hin as (z & Hz & Hin). apply filter_In in Hin.
  apply in_map_iff. exists z. tauto.
Qed.

Lemma level_names_NoDup : NoDup level_names.
Proof.
  unfold level_names.
  repeat (apply NoDup_cons;
          [simpl; intros H; repeat (destruct H as [H | H]; try discriminate);
           contradiction|]).
  apply NoDup_nil.
Qed.

Lemma levelData_filter (logEvents : list LogEvent) :
  logEvents <> [] ->
  levelData toLowerCase logEvents
  = filter (fun e => (0 <? snd e)%nat)
           (entries (count_levels toLowerCase logEvents)).
Proof. destruct logEvents; [contradiction | reflexivity]. Qed.

End LevelFacts.

(** X25.  The level chart accounts for every event exactly once: the
    counts of [levelData] add up to the number of events.  Every level it
    lists has a positive count, no level is listed twice, and the levels
    are among ERROR, WARN, INFO, DEBUG and OTHER. *)
Theorem level_counts_partition (toLowerCase : string -> string)
    (logEvents : list LogEvent) :
  list_sum (map snd (LogVisualization.levelData toLowerCase logEvents))
  = List.length logEvents /\
  Forall (fun e => (0 < snd e)%nat)
         (LogVisualization.levelData toLowerCase logEvents) /\
  NoDup (map fst (LogVisualization.levelData toLowerCase logEvents)) /\
  incl (map fst (LogVisualization.levelData toLowerCase logEvents))
       LogVisualization.level_names.
Proof.
  destruct logEvents as [|e l].
  - simpl. split; [reflexivity|]. split; [constructor|].
    split; [constructor|]. intros x Hx. contradiction.
  - rewrite levelData_filter by discriminate.
    split; [|split; [|split]].
    + rewrite positive_sum.
      pose proof (fold_count_total toLowerCase (e :: l)
                    (LogVisualization.mkLevels 0 0 0 0 0)) as Ht.
      unfold LogVisualization.count_levels.
      unfold LogVisualization.total in Ht at 1. simpl in Ht |- *. lia.
    + apply Forall_forall. intros x Hx. apply filter_In in Hx.
      apply Nat.ltb_lt. tauto.
    + apply NoDup_map_filter. exact level_names_NoDup.
    + intros name Hin. apply in_map_iff in Hin.
      destruct Hin as (x & <- & Hx). apply filter_In in Hx.
      destruct Hx as (Hx & _).
      change LogVisualization.level_names
        with (map fst (LogVisualization.entries
                         (LogVisualization.count_levels toLowerCase (e :: l)))).
      apply in_map. exact Hx.
Qed.

(** X26.  The error count of the statistics is the ERROR count of the
    level chart: both count the events whose lower-cased message mentions "error"
    or "fatal", so a message that also mentions "warn" or "info"
    counts as an error only.  ERROR is listed by the chart exactly when
    that count is positive. *)
Theorem error_count_agrees (toLowerCase : string -> string)
    (logEvents : list LogEvent) :
  LogVisualization.errorCount toLowerCase logEvents
  = LogVisualization.nERROR
      (LogVisualization.count_levels toLowerCase logEvents) /\
  (LogVisualization.errorCount toLowerCase logEvents
   <= List.length logEvents)%nat /\
  ((0 < LogVisualization.errorCount toLowerCase logEvents)%nat ->
   In ("ERROR", LogVisualization.errorCount toLowerCase logEvents)
      (LogVisualization.levelData toLowerCase logEvents)) /\
  (LogVisualization.errorCount toLowerCase logEvents = 0%nat ->
   ~ In "ERROR"
        (map fst (LogVisualization.levelData toLowerCase logEvents))).
Proof.
  assert (Hagree : LogVisualization.errorCount toLowerCase logEvents
                   = LogVisualization.nERROR
                       (LogVisualization.count_levels toLowerCase logEvents)).
  { unfold LogVisualization.count_levels. rewrite fold_count_errors.
    reflexivity. }
  split; [exact Hagree|]. split; [apply filter_length_le|]. split.
  - intros Hpos. destruct logEvents as [|e l]; [cbv in Hpos; lia|].
    rewrite levelData_filter by discriminate. apply filter_In. split.
    + rewrite Hagree. left. reflexivity.
    + apply Nat.ltb_lt. exact Hpos.
  - intros Hzero Hin. destruct logEvents as [|e l]; [exact Hin|].
    rewrite levelData_filter in Hin by discriminate.
    apply in_map_iff in Hin. destruct Hin as ([name n] & Hname & Hx).
    simpl in Hname. subst name. apply filter_In in Hx.
    destruct Hx as (Hx & Hpos). apply Nat.ltb_lt in Hpos. simpl in Hpos.
    rewrite Hagree in Hzero.
    destruct Hx as [E | [E | [E | [E | [E | []]]]]];
      try discriminate; injection E as E.
    rewrite <- E in Hpos. rewrite Hzero in Hpos. inversion Hpos.
Qed.

Lemma error_count_agrees_witness :
  In ("ERROR", 2%nat)
     (LogVisualization.levelData Filter.asciiLowerCase
                                 MoreExamples.sampleEvents).
Proof.
  destruct (error_count_agrees Filter.asciiLowerCase
              MoreExamples.sampleEvents) as (_ & _ & Hin & _).
  apply Hin. vm_compute. lia.
Defined.

Section SpanFacts.

Import LogVisualization.

Lemma Math_max_bounds (xs : list Z) :
  forall x, x <= Math_max x xs /\ (forall y, In y xs -> y <= Math_max x xs).
Proof.
  unfold Math_max. induction xs as [|z xs IH]; intros x; simpl.
  - split; [lia | intros y []].
  - destruct (IH (Z.max x z)) as (Hx & Hxs). split; [lia|].
    intros y [<- | Hy]; [lia | exact (Hxs y Hy)].
Qed.

Lemma Math_max_in (xs : list Z) :
  forall x, In (Math_max x xs) (x :: xs).
Proof.
  unfold Math_max. induction xs as [|z xs IH]; intros x; simpl.
  - left. reflexivity.
  - destruct (IH (Z.max x z)) as [H | H].
    + rewrite <- H. destruct (Z.max_spec x z) as [(_ & ->) | (_ & ->)]; auto.
    + right. right. exact H.
Qed.

Lemma Math_min_bounds (xs : list Z) :
  forall x, Math_min x xs <= x /\ (forall y, In y xs -> Math_min x xs <= y).
Proof.
  unfold Math_min. induction xs as [|z xs IH]; intros x; simpl.
  - split; [lia | intros y []].
  - destruct (IH (Z.min x z)) as (Hx & Hxs). split; [lia|].
    intros y [<- | Hy]; [lia | exact (Hxs y Hy)].
Qed.

Lemma Math_min_in (xs : list Z) :
  forall x, In (Math_min x xs) (x :: xs).
Proof.
  unfold Math_min. induction xs as [|z xs IH]; intros x; simpl.
  - left. reflexivity.
  - destruct (IH (Z.min x z)) as [H | H].
    + rewrite <- H. destruct (Z.min_spec x z) as [(_ & ->) | (_ & ->)]; auto.
    + right. right. exact H.
Qed.

Lemma timeSpan_many (e e' : LogEvent) (rest : list LogEvent) :
  timeSpan (e :: e' :: rest)
  = Math_max (ev_timestamp e) (map ev_timestamp (e' :: rest))
    - Math_min (ev_timestamp e) (map ev_timestamp (e' :: rest)).
Proof. reflexivity. Qed.

End SpanFacts.

(** X27.  The time span of the statistics is the largest difference
    between the timestamps of two events: it is never negative, no two
    events are further apart, and for a non-empty list two events are
    exactly that far apart.  For a single event it is 0. *)
Theorem timeSpan_is_largest_gap (logEvents : list LogEvent) :
  0 <= LogVisualization.timeSpan logEvents /\
  (forall e1 e2, In e1 logEvents -> In e2 logEvents ->
                 ev_timestamp e1 - ev_timestamp e2
                 <= LogVisualization.timeSpan logEvents) /\
  (logEvents <> [] ->
   exists e1 e2, In e1 logEvents /\ In e2 logEvents /\
                 ev_timestamp e1 - ev_timestamp e2
                 = LogVisualization.timeSpan logEvents).
Proof.
  destruct logEvents as [|e [|e' rest]].
  - simpl. split; [reflexivity|]. split; [intros e1 e2 []|]. intros H.
    contradiction.
  - unfold LogVisualization.timeSpan. simpl. split; [reflexivity|]. split.
    + intros e1 e2 [<- | []] [<- | []]. lia.
    + intros _. exists e, e. repeat split; auto. lia.
  - rewrite timeSpan_many.
    set (ts := map ev_timestamp (e' :: rest)).
    destruct (Math_max_bounds ts (ev_timestamp e)) as (Hmax0 & Hmax).
    destruct (Math_min_bounds ts (ev_timestamp e)) as (Hmin0 & Hmin).
    assert (Hup : forall x, In x (e :: e' :: rest) ->
                            ev_timestamp x <= LogVisualization.Math_max
                                                (ev_timestamp e) ts).
    { intros x [<- | Hx]; [exact Hmax0|].
      apply Hmax. apply in_map. exact Hx. }
    assert (Hlow : forall x, In x (e :: e' :: rest) ->
                             LogVisualization.Math_min (ev_timestamp e) ts
                             <= ev_timestamp x).
    { intros x [<- | Hx]; [exact Hmin0|].
      apply Hmin. apply in_map. exact Hx. }
    split; [lia|]. split.
    + intros e1 e2 H1 H2.
      pose proof (Hup e1 H1). pose proof (Hlow e2 H2). lia.
    + intros _.
      assert (Hin : forall z, In z (ev_timestamp e :: ts) ->
                              exists x, In x (e :: e' :: rest)
                                        /\ ev_timestamp x = z).
      { intros z [<- | Hz].
        - exists e. split; [left; reflexivity | reflexivity].
        - apply in_map_iff in Hz. destruct Hz as (x & Hx & Hin).
          exists x. split; [right; exact Hin | exact Hx]. }
      destruct (Hin _ (Math_max_in ts (ev_timestamp e))) as (e1 & H1 & E1).
      destruct (Hin _ (Math_min_in ts (ev_timestamp e))) as (e2 & H2 & E2).
      exists e1, e2. split; [exact H1|]. split; [exact H2|]. lia.
Qed.

Lemma timeSpan_is_largest_gap_witness :
  exists e1 e2,
    In e1 MoreExamples.sampleEvents /\ In e2 MoreExamples.sampleEvents /\
    ev_timestamp e1 - ev_timestamp e2
    = LogVisualization.timeSpan MoreExamples.sampleEvents.
Proof.
  destruct (timeSpan_is_largest_gap MoreExamples.sampleEvents) as (_ & _ & H).
  apply H. discriminate.
Defined.

Lemma nodup_length_le (l : list string) :
  (List.length (nodup string_dec l) <= List.length l)%nat.
Proof.
  induction l as [|x l IH]; simpl; [lia|].
  destruct (in_dec string_dec x l); simpl; lia.
Qed.

(** X28.  The counters of the statistics never exceed the number of
    events: not the recent events, whatever the clock, not the errors,
    not the distinct streams.  A non-empty list has at least one stream,
    and when no two events share a stream name there are as many streams
    as events. *)
Theorem stats_bounds (toLowerCase : string -> string) (now : Z)
    (logEvents : list LogEvent) :
  (List.length (LogVisualization.recentEvents now logEvents)
   <= List.length logEvents)%nat /\
  (LogVisualization.errorCount toLowerCase logEvents
   <= List.length logEvents)%nat /\
  (LogVisualization.uniqueStreams logEvents <= List.length logEvents)%nat /\
  (logEvents <> [] -> (1 <= LogVisualization.uniqueStreams logEvents)%nat) /\
  (NoDup (map ev_logStreamName logEvents) ->
   LogVisualization.uniqueStreams logEvents = List.length logEvents).
Proof.
  unfold LogVisualization.recentEvents, LogVisualization.errorCount,
    LogVisualization.uniqueStreams.
  split; [apply filter_length_le|]. split; [apply filter_length_le|].
  split; [|split].
  - rewrite <- (length_map ev_logStreamName logEvents). apply nodup_length_le.
  - intros Hne. destruct logEvents as [|e l]; [contradiction|].
    assert (Hin : In (ev_logStreamName e)
                     (nodup string_dec (map ev_logStreamName (e :: l)))).
    { apply nodup_In. left. reflexivity. }
    destruct (nodup string_dec (map ev_logStreamName (e :: l)));
      [contradiction | simpl; lia].
  - intros Hnd. rewrite (nodup_fixed_point string_dec Hnd).
    apply length_map.
Qed.

Lemma stats_bounds_witness :
  (1 <= LogVisualization.uniqueStreams MoreExamples.sampleEvents)%nat.
Proof.
  destruct (stats_bounds Filter.asciiLowerCase 0 MoreExamples.sampleEvents)
    as (_ & _ & _ & H & _).
  apply H. discriminate.
Defined.
